(** * kafkaclient: consumer backends and producer

    A shallow embedding of the three Go sources of the package
    (the kafka-go consumer, the sarama consumer and the sarama producer)
    and the properties of their message loops, offset commits, dead-letter
    hand-off and encoder dispatch.

    Conventions.  Go integers are [Z] with the wrap-around of their width
    written out, [[]byte] is [list Byte.byte], Go maps are [gmap], a nil
    interface or nil func is [None].  Whatever the code gets from outside
    (the broker's answer to a commit, the host's processor, the next select
    case that fires) is an explicit input of the model. *)

From Stdlib Require Import ZArith Lia.
From stdpp Require Import base list strings gmap pretty.

Open Scope Z_scope.

(** ** Machine integers *)

(** Two's complement wrap-around to [w] bits. *)
Definition wrap (w : Z) (z : Z) : Z :=
  (z + 2 ^ (w - 1)) `mod` 2 ^ w - 2 ^ (w - 1).

Definition int32 (z : Z) : Z := wrap 32 z.
Definition int64 (z : Z) : Z := wrap 64 z.

(** ** Errors and log entries *)

(** The package's error values and error builders ([errors.go] is not part
    of the sources at hand: each builder is kept as a constructor over its
    arguments).  [extError] is an error that comes from a library or from
    the host application. *)
Inductive error : Type :=
  | errTopicConfMissing
  | errInvalidProducer
  | errMessageType
  | errCodecNil (topic : string)
  | errMsgRead (cause : error)
  | errSetOffset (cause : error)
  | errCommit (cause : error)
  | errProduceFail (topic : string)
  | errEvent (text topic : string) (partition offset : Z)
  | extError (text : string).

(** Modelled from the spec: the text of the package's [errMessageType],
    "unsupported message type"; the other texts are not fixed by it. *)
Definition error_text (e : error) : option string :=
  match e with
  | errMessageType => Some "unsupported message type"
  | extError t => Some t
  | _ => None
  end.

Inductive info : Type :=
  | infoEvent (text topic : string) (partition offset : Z)
  | infoProduceSuccess (topic : string) (partition offset : Z).

Inductive LogCat : Type :=
  | LogCatKafkaConsume
  | LogCatKafkaCommitOffset
  | LogCatKafkaProcessMessage
  | LogCatKafkaProduce
  | LogCatKafkaProducerInit
  | LogCatKafkaEncode.

(** One call of the logger: [lg.Error(cat, e)], [lg.Error(cat, e, cause)]
    or [lg.Info(cat, i)]. *)
Inductive LogEntry : Type :=
  | LogError (cat : LogCat) (e : error)
  | LogError2 (cat : LogCat) (e cause : error)
  | LogInfo (cat : LogCat) (i : info).

Definition Log : Type := list LogEntry.

(** ** Channels and the non-blocking send *)

(** A Go channel as the runtime sees it at one instant: its capacity, the
    buffered elements, the number of receivers parked on it, and what has
    been handed to receivers directly. *)
Record Chan (A : Type) : Type := mkChan {
  ch_cap : nat;
  ch_buf : list A;
  ch_recvq : nat;
  ch_handed : list A
}.
Arguments mkChan {A}.
Arguments ch_cap {A}.
Arguments ch_buf {A}.
Arguments ch_recvq {A}.
Arguments ch_handed {A}.

(** [make(chan A)] and [make(chan A, n)]. *)
Definition make_chan {A : Type} (n : nat) : Chan A := mkChan n [] 0%nat [].

(** The send case of [select { case ch <- v: ... default: ... }]: the value
    goes to a parked receiver if there is one, else into the buffer if it has
    room; otherwise the send is not performed and [None] selects the
    default case. *)
Definition trySend {A : Type} (ch : Chan A) (v : A) : option (Chan A) :=
  match ch_recvq ch with
  | S n => Some (mkChan (ch_cap ch) (ch_buf ch) n (ch_handed ch ++ [v]))
  | O =>
      if decide (length (ch_buf ch) < ch_cap ch)%nat
      then Some (mkChan (ch_cap ch) (ch_buf ch ++ [v]) 0%nat (ch_handed ch))
      else None
  end.

(** Everything the receiving side has got or will get, oldest first. *)
Definition ch_delivered {A : Type} (ch : Chan A) : list A :=
  ch_handed ch ++ ch_buf ch.

(** ** Payloads, codecs and topic configuration *)

(** [reflect.Kind]. *)
Inductive Kind : Type :=
  | KInvalid | KBool | KInt | KInt8 | KInt16 | KInt32 | KInt64
  | KUint | KUint8 | KUint16 | KUint32 | KUint64 | KUintptr
  | KFloat32 | KFloat64 | KComplex64 | KComplex128
  | KArray | KChan | KFunc | KInterface | KMap | KPointer | KSlice
  | KString | KStruct | KUnsafePointer.

#[global] Instance Kind_eq_dec : EqDecision Kind.
Proof. solve_decision. Defined.

(** A value held in an [interface{}], by its dynamic type.  The predeclared
    types the producer switches on have a constructor each; floats are kept
    as their IEEE bit patterns.  [VStruct] is a value of a struct type,
    [VOther k] a value of any other dynamic type, of kind [k] (the nil
    interface is [VOther KInvalid], a func is [VOther KFunc], Go's [int] is
    [VOther KInt], a named string type is [VOther KString]). *)
Inductive GoValue : Type :=
  | VString (s : string)
  | VBytes (b : list Byte.byte)
  | VInt32 (n : Z)
  | VInt64 (n : Z)
  | VFloat32 (bits : Z)
  | VFloat64 (bits : Z)
  | VStruct (type_name : string) (fields : list (string * string))
  | VOther (k : Kind).

(** [reflect.ValueOf(v).Kind()]. *)
Definition reflect_Kind (v : GoValue) : Kind :=
  match v with
  | VString _ => KString
  | VBytes _ => KSlice
  | VInt32 _ => KInt32
  | VInt64 _ => KInt64
  | VFloat32 _ => KFloat32
  | VFloat64 _ => KFloat64
  | VStruct _ _ => KStruct
  | VOther k => k
  end.

(** Modelled from the spec: the message codec capability, which the package
    receives per topic and does not implement:
    [encode(value) -> bytes, error] and [decode(bytes) -> value, error]. *)
Record Codec : Type := mkCodec {
  codec_encode : GoValue → list Byte.byte + error;
  codec_decode : list Byte.byte → GoValue + error
}.

(** Modelled from the spec: the message handed to a processor,
    {topic, partition, offset, key, decoded payload, raw bytes}
    ([message.go] is not part of the sources at hand). *)
Record Message : Type := mkMessage {
  msg_topic : string;
  msg_partition : Z;
  msg_offset : Z;
  msg_key : list Byte.byte;
  msg_payload : option GoValue;
  msg_raw : list Byte.byte
}.

Definition decode_with (codec : option Codec) (raw : list Byte.byte)
  : option GoValue :=
  match codec with
  | Some c => match codec_decode c raw with inl v => Some v | inr _ => None end
  | None => None
  end.

(** Modelled from the spec: a message whose processing failed,
    {original message, destination topic, causal error}. *)
Record failedMessage : Type := newFailedMessage {
  fm_msg : Message;
  fm_topic : string;
  fm_err : error
}.

(** ** Outcomes of loops *)

(** How one pass through the body of a [for] loop ends. *)
Inductive LoopOutcome (S : Type) : Type :=
  | Continue (st : S)
  | Return (st : S)
  | Panic (why : string) (st : S).
Arguments Continue {S}.
Arguments Return {S}.
Arguments Panic {S}.

(** How a run of a loop stands after a bounded number of passes. *)
Inductive LoopRun (S : Type) : Type :=
  | Running (st : S)
  | Returned (st : S)
  | Panicked (why : string) (st : S).
Arguments Running {S}.
Arguments Returned {S}.
Arguments Panicked {S}.

(** How a function with result [e error] stands once the given events are
    used up: still in its loop, returned, or panicked. *)
Inductive CallRun (S : Type) : Type :=
  | Blocked (st : S)
  | Result (e : option error) (st : S)
  | Crashed (why : string) (st : S).
Arguments Blocked {S}.
Arguments Result {S}.
Arguments Crashed {S}.

Definition nilDereference : string :=
  "invalid memory address or nil pointer dereference".

Section Host.

(** The opaque dependency bundle handed unchanged to every processor, and
    the state of the host application that a processor may read and change. *)
Context {ProcessorDependencies Host : Type}.

(** [func(ctx, ProcessorDependencies, ConsumerMessage) error]. *)
Definition Processor : Type :=
  ProcessorDependencies → Message → Host → option error * Host.

(** [TopicConfig]; a nil codec and a nil processor are [None]. *)
Record TopicConfig : Type := mkTopicConfig {
  Name : string;
  messageCodec : option Codec;
  MessageProcessor : option Processor;
  FailedProcessingTopic : string
}.

(** The zero value, which a Go map lookup yields for an absent key. *)
Definition TopicConfig_zero : TopicConfig := mkTopicConfig "" None None "".

(** [m[topic]] on a [map[string]TopicConfig]. *)
Definition topicConf_lookup (m : gmap string TopicConfig) (topic : string)
  : TopicConfig :=
  default TopicConfig_zero (m !! topic).

(** ** The kafka-go backend *)

(** [kafka.Message], the fields the consumer reads. *)
Record kafka_Message : Type := mkKafkaMessage {
  km_Topic : string;
  km_Partition : Z;
  km_Offset : Z;
  km_Key : list Byte.byte;
  km_Value : list Byte.byte
}.

(** [kafka.PartitionAssignment]. *)
Record PartitionAssignment : Type := mkAssignment {
  pa_ID : Z;
  pa_Offset : Z
}.

(** A [kafka.Reader] bound to one partition.  [rd_fetch o] is the record
    the broker delivers to a reader positioned at offset [o], or [None]
    when no record arrives before the context ends. *)
Record Reader : Type := mkReader {
  rd_fetch : Z → option kafka_Message;
  rd_offset : Z;
  rd_closed : bool
}.

Definition errClosed : error := extError "io: read/write on closed pipe".
Definition errCtxDone : error := extError "context canceled".

(** [reader.ReadMessage(ctx)]: the record at the current position, after
    which the reader stands behind it. *)
Definition ReadMessage (r : Reader) : (kafka_Message + error) * Reader :=
  if rd_closed r then (inr errClosed, r)
  else match rd_fetch r (rd_offset r) with
       | Some msg =>
           (inl msg, mkReader (rd_fetch r) (int64 (km_Offset msg + 1)) false)
       | None => (inr errCtxDone, r)
       end.

(** [reader.SetOffset(offset)]. *)
Definition SetOffset (r : Reader) (offset : Z) : option error * Reader :=
  if rd_closed r then (Some errClosed, r)
  else (None, mkReader (rd_fetch r) offset false).

(** A [kafka.Generation]: the assignments, and the group coordinator as far
    as commits go.  [gen_commit_result n] is the coordinator's answer to the
    [n]-th [CommitOffsets] call of the generation (counted from 0),
    [gen_commit_calls] the calls made so far and [gen_committed] the
    offsets it has accepted. *)
Record Generation : Type := mkGeneration {
  Assignments : gmap string (list PartitionAssignment);
  gen_commit_result : nat → option error;
  gen_commit_calls : list (gmap string (gmap Z Z));
  gen_committed : gmap string (gmap Z Z)
}.

(** An accepted commit overrides the stored offset of each partition it
    names. *)
Definition merge_offsets (new old : gmap string (gmap Z Z))
  : gmap string (gmap Z Z) :=
  union_with (λ n o, Some (n ∪ o)) new old.

Definition committed_offset (g : Generation) (topic : string) (partition : Z)
  : option Z :=
  gen_committed g !! topic ≫= (.!! partition).

(** [gen.CommitOffsets(offsets)]. *)
Definition CommitOffsets (g : Generation) (offsets : gmap string (gmap Z Z))
  : option error * Generation :=
  let r := gen_commit_result g (length (gen_commit_calls g)) in
  (r, mkGeneration (Assignments g) (gen_commit_result g)
        (gen_commit_calls g ++ [offsets])
        (match r with
         | None => merge_offsets offsets (gen_committed g)
         | Some _ => gen_committed g
         end)).

(** The argument [map[string]map[int]int64{topic: {partition: offset}}]. *)
Definition offset_map (topic : string) (partition offset : Z)
  : gmap string (gmap Z Z) :=
  {[ topic := {[ partition := offset ]} ]}.

(** [commitOffset]: it has no result; what it changes is the generation
    and the log. *)
Definition commitOffset (topic : string) (partition offset : Z)
    (g : Generation) (lg : Log) : Generation * Log :=
  let '(e, g) := CommitOffsets g (offset_map topic partition offset) in
  match e with
  | Some err =>
      let lg := lg ++ [LogError LogCatKafkaCommitOffset (errCommit err)] in
      (* retry *)
      let '(e, g) := CommitOffsets g (offset_map topic partition offset) in
      match e with
      | Some err =>
          (g, lg ++ [LogError LogCatKafkaCommitOffset (errCommit err)])
      | None => (g, lg)
      end
  | None => (g, lg)
  end.

(** The fields of [kafkagoConsumer] that the loops read. *)
Record kafkagoConsumer : Type := mkKafkagoConsumer {
  topicNames : list string;
  topicConfig : gmap string TopicConfig;
  procDependencies : ProcessorDependencies
}.

(** What one partition loop works on: its reader and its [offset]
    variable, and what it shares with the rest of the program: the
    generation [c.gen], the channel [c.failMessages], the host and the log. *)
Record LoopState : Type := mkLoopState {
  ls_reader : Reader;
  ls_offset : Z;
  ls_gen : Generation;
  ls_failMessages : Chan failedMessage;
  ls_host : Host;
  ls_log : Log
}.

Definition ls_logged (e : LogEntry) (st : LoopState) : LoopState :=
  mkLoopState (ls_reader st) (ls_offset st) (ls_gen st) (ls_failMessages st)
    (ls_host st) (ls_log st ++ [e]).

(** [c.commitOffset(topic, partition, offset)] inside a loop. *)
Definition ls_commit (topic : string) (partition offset : Z) (st : LoopState)
  : LoopState :=
  let '(g, lg) := commitOffset topic partition offset (ls_gen st) (ls_log st) in
  mkLoopState (ls_reader st) (ls_offset st) g (ls_failMessages st)
    (ls_host st) lg.

(** Modelled from the spec: [newKafkaGoMessage] ([message.go] is not part
    of the sources at hand) builds the message once per received record,
    with the payload decoded by the topic's codec. *)
Definition newKafkaGoMessage (msg : kafka_Message) (codec : option Codec)
  : Message :=
  mkMessage (km_Topic msg) (km_Partition msg) (km_Offset msg) (km_Key msg)
    (decode_with codec (km_Value msg)) (km_Value msg).

Definition sentToFailHandler : string := "failed message sent to fail handler".
Definition notSentToFailHandler : string :=
  "failed message not sent to fail handler".

(** The [select] with a [default] case that hands a failed message to the
    fail handler, with the log line of the case taken. *)
Definition forwardFailed (fm : failedMessage) (topic : string)
    (partition offset : Z) (ch : Chan failedMessage)
  : Chan failedMessage * LogEntry :=
  match trySend ch fm with
  | Some ch' =>
      (ch', LogInfo LogCatKafkaConsume
              (infoEvent sentToFailHandler topic partition offset))
  | None =>
      (ch, LogError LogCatKafkaConsume
             (errEvent notSentToFailHandler topic partition offset))
  end.

(** The failure branch of the loop body, from the [select] to the commit of
    [offset-1]. *)
Definition onProcessingFailure (conf : TopicConfig) (topic : string)
    (partition : Z) (msg : kafka_Message) (m : Message) (e : error)
    (st : LoopState) : LoopState :=
  let st :=
    if decide (FailedProcessingTopic conf ≠ "") then
      let '(ch, entry) :=
        forwardFailed (newFailedMessage m (FailedProcessingTopic conf) e)
          (km_Topic msg) (int32 (km_Partition msg)) (km_Offset msg)
          (ls_failMessages st) in
      ls_logged entry
        (mkLoopState (ls_reader st) (ls_offset st) (ls_gen st) ch
           (ls_host st) (ls_log st))
    else st in
  let '(e, rd) := SetOffset (ls_reader st) (ls_offset st) in
  let st :=
    mkLoopState rd (ls_offset st) (ls_gen st) (ls_failMessages st)
      (ls_host st) (ls_log st) in
  let st :=
    match e with
    | Some err => ls_logged (LogError LogCatKafkaCommitOffset (errSetOffset err)) st
    | None => st
    end in
  ls_commit topic partition (int64 (ls_offset st - 1)) st.

(** One pass through the body of the read loop of [consumeTopic]. *)
Definition loopBody (c : kafkagoConsumer) (conf : TopicConfig)
    (topic : string) (partition : Z) (st : LoopState)
  : LoopOutcome LoopState :=
  let '(r, rd) := ReadMessage (ls_reader st) in
  let st :=
    mkLoopState rd (ls_offset st) (ls_gen st) (ls_failMessages st)
      (ls_host st) (ls_log st) in
  match r with
  | inr e => Return (ls_logged (LogError LogCatKafkaConsume (errMsgRead e)) st)
  | inl msg =>
      let st :=
        mkLoopState (ls_reader st) (km_Offset msg) (ls_gen st)
          (ls_failMessages st) (ls_host st) (ls_log st) in
      let m := newKafkaGoMessage msg (messageCodec conf) in
      match MessageProcessor conf with
      | None => Panic nilDereference st
      | Some process =>
          let '(e, host) := process (procDependencies c) m (ls_host st) in
          let st :=
            mkLoopState (ls_reader st) (ls_offset st) (ls_gen st)
              (ls_failMessages st) host (ls_log st) in
          let st :=
            match e with
            | Some err =>
                (* failed message processing *)
                onProcessingFailure conf topic partition msg m err st
            | None => st
            end in
          (* successful message processing *)
          Continue (ls_commit topic partition (ls_offset st) st)
      end
  end.

(** The read loop, for at most [n] passes. *)
Fixpoint readLoop (n : nat) (c : kafkagoConsumer) (conf : TopicConfig)
    (topic : string) (partition : Z) (st : LoopState) : LoopRun LoopState :=
  match n with
  | O => Running st
  | S n' =>
      match loopBody c conf topic partition st with
      | Continue st' => readLoop n' c conf topic partition st'
      | Return st' => Returned st'
      | Panic why st' => Panicked why st'
      end
  end.

(** The function that [consumeTopic] passes to [gen.Start] for one
    assignment: the loop it will run, on the partition and from the offset
    of the assignment. *)
Record LoopTask : Type := mkLoopTask {
  lt_topic : string;
  lt_partition : Z;
  lt_offset : Z
}.

(** The body of a task up to the loop: [c.reader(topic, partition)] over
    the broker's partition, then [reader.SetOffset(offset)]. *)
Definition taskStart (fetch : string → Z → Z → option kafka_Message)
    (t : LoopTask) (g : Generation) (ch : Chan failedMessage) (h : Host)
    (lg : Log) : LoopState :=
  let reader := mkReader (fetch (lt_topic t) (lt_partition t)) 0 false in
  let '(_, reader) := SetOffset reader (lt_offset t) in
  mkLoopState reader (lt_offset t) g ch h lg.

(** A started task, for at most [n] passes of its loop. *)
Definition runTask (n : nat) (c : kafkagoConsumer)
    (fetch : string → Z → Z → option kafka_Message) (t : LoopTask)
    (g : Generation) (ch : Chan failedMessage) (h : Host) (lg : Log)
  : LoopRun LoopState :=
  readLoop n c (topicConf_lookup (topicConfig c) (lt_topic t))
    (lt_topic t) (lt_partition t) (taskStart fetch t g ch h lg).

(** [consumeTopic] up to its deferred [Done]: the functions it hands to
    [gen.Start], one per assignment of the topic, in order.
    [gen.Start] launches each in a goroutine of its own and returns. *)
Definition consumeTopic (g : Generation) (topic : string) : list LoopTask :=
  let assignments := default [] (Assignments g !! topic) in
  (λ a, mkLoopTask topic (pa_ID a) (pa_Offset a)) <$> assignments.

(** ** The generation loop of the kafka-go backend *)

(** Where [startConsume] stands: about to call [c.group.Next], inside the
    call, asleep after a failed [Next], in the [for] over [c.topicNames]
    with the given names still to go, or in [c.consumerWait.Wait()]. *)
Inductive CoordPc : Type :=
  | AtNext
  | InNext
  | AtSleep
  | AtGo (rest : list string)
  | AtWait.

(** The goroutines of the backend at one instant: the coordinator, the
    goroutines started by [go c.consumeTopic(t)] that have not returned,
    and the functions launched through [gen.Start] that have not returned,
    with the fields they share: [c.gen] and the counter of
    [c.consumerWait].  [sc_started] records every function handed to
    [gen.Start] in the current generation, [sc_nexts] the calls of
    [c.group.Next] made. *)
Record Sched : Type := mkSched {
  sc_pc : CoordPc;
  sc_gen : option Generation;
  sc_wg : Z;
  sc_topics : list string;
  sc_loops : list LoopTask;
  sc_started : list LoopTask;
  sc_nexts : nat;
  sc_log : Log
}.

Definition sched_init : Sched := mkSched AtNext None 0 [] [] [] 0%nat [].

(** The moves of the scheduler.  [CoordCallsNext]: the coordinator calls
    [c.group.Next].  [NextReturns r]: the call returns [r], which the
    coordinator stores in [c.gen]; on a generation it goes on to
    [c.consumerWait.Add(len(c.topicNames))].  [CoordWake]: the sleep ends.
    [CoordGo]: the coordinator runs one [go] statement, or leaves the [for]
    for [Wait].  [CoordWaitReturns]: [Wait] returns, which takes a counter
    of zero.  [TopicRuns i]: the [i]-th pending [consumeTopic] runs to its
    return, handing its functions to [gen.Start], which launches each in a
    goroutine of its own, and calling the deferred [Done].
    [LoopExits i]: the [i]-th running partition loop returns. *)
Inductive Move : Type :=
  | CoordCallsNext
  | NextReturns (r : Generation + error)
  | CoordWake
  | CoordGo
  | CoordWaitReturns
  | TopicRuns (i : nat)
  | LoopExits (i : nat).

(** One move, [None] when the move is not enabled in the state. *)
Definition startConsume_step (c : kafkagoConsumer) (m : Move) (s : Sched)
  : option Sched :=
  match m, sc_pc s with
  | CoordCallsNext, AtNext =>
      Some (mkSched InNext (sc_gen s) (sc_wg s) (sc_topics s) (sc_loops s)
              (sc_started s) (S (sc_nexts s)) (sc_log s))
  | NextReturns (inr e), InNext =>
      Some (mkSched AtSleep None (sc_wg s) (sc_topics s) (sc_loops s)
              (sc_started s) (sc_nexts s)
              (sc_log s ++ [LogError LogCatKafkaConsume e]))
  | NextReturns (inl g), InNext =>
      Some (mkSched (AtGo (topicNames c)) (Some g)
              (sc_wg s + Z.of_nat (length (topicNames c))) (sc_topics s)
              (sc_loops s) [] (sc_nexts s) (sc_log s))
  | CoordWake, AtSleep =>
      Some (mkSched AtNext (sc_gen s) (sc_wg s) (sc_topics s) (sc_loops s)
              (sc_started s) (sc_nexts s) (sc_log s))
  | CoordGo, AtGo (t :: rest) =>
      Some (mkSched (AtGo rest) (sc_gen s) (sc_wg s) (sc_topics s ++ [t])
              (sc_loops s) (sc_started s) (sc_nexts s) (sc_log s))
  | CoordGo, AtGo [] =>
      Some (mkSched AtWait (sc_gen s) (sc_wg s) (sc_topics s) (sc_loops s)
              (sc_started s) (sc_nexts s) (sc_log s))
  | CoordWaitReturns, AtWait =>
      if decide (sc_wg s = 0)
      then Some (mkSched AtNext (sc_gen s) (sc_wg s) (sc_topics s)
                   (sc_loops s) (sc_started s) (sc_nexts s) (sc_log s))
      else None
  | TopicRuns i, _ =>
      match sc_topics s !! i, sc_gen s with
      | Some t, Some g =>
          let tasks := consumeTopic g t in
          Some (mkSched (sc_pc s) (sc_gen s) (sc_wg s - 1)
                  (delete i (sc_topics s)) (sc_loops s ++ tasks)
                  (sc_started s ++ tasks) (sc_nexts s) (sc_log s))
      | _, _ => None
      end
  | LoopExits i, _ =>
      match sc_loops s !! i with
      | Some _ =>
          Some (mkSched (sc_pc s) (sc_gen s) (sc_wg s) (sc_topics s)
                  (delete i (sc_loops s)) (sc_started s) (sc_nexts s)
                  (sc_log s))
      | None => None
      end
  | _, _ => None
  end.

(** A run of moves from a state. *)
Fixpoint startConsume_run (c : kafkagoConsumer) (ms : list Move) (s : Sched)
  : option Sched :=
  match ms with
  | [] => Some s
  | m :: ms' =>
      match startConsume_step c m s with
      | Some s' => startConsume_run c ms' s'
      | None => None
      end
  end.

(** The states [startConsume] and its goroutines can be in. *)
Definition reachable (c : kafkagoConsumer) (s : Sched) : Prop :=
  ∃ ms, startConsume_run c ms sched_init = Some s.

(** Every partition loop that the generation of the state has to run: one
    per assignment of each subscribed topic. *)
Definition generationTasks (c : kafkagoConsumer) (s : Sched) : list LoopTask :=
  match sc_gen s with
  | Some g => concat (consumeTopic g <$> topicNames c)
  | None => []
  end.

(** The names the [for] of [startConsume] has still to go through. *)
Definition pending_go (pc : CoordPc) : list string :=
  match pc with
  | AtGo rest => rest
  | _ => []
  end.

(** What holds of every reachable state: the counter of the wait group is
    the number of [consumeTopic] calls started or to be started that have
    not returned; outside of a generation there is none; inside of one, the
    loops started and the loops of the topics still to be run make up the
    loops of the generation. *)
Definition sched_inv (c : kafkagoConsumer) (s : Sched) : Prop :=
  sc_wg s = Z.of_nat (length (sc_topics s) + length (pending_go (sc_pc s)))
  ∧ match sc_pc s with
    | AtNext | InNext | AtSleep => sc_topics s = []
    | AtGo _ | AtWait =>
        ∃ g, sc_gen s = Some g
             ∧ sc_started s
               ++ concat (consumeTopic g
                            <$> sc_topics s ++ pending_go (sc_pc s))
               ≡ₚ concat (consumeTopic g <$> topicNames c)
    end.

(** ** The sarama backend *)

(** [sarama.ConsumerMessage], the fields the consumer reads. *)
Record sarama_ConsumerMessage : Type := mkSaramaMessage {
  sm_Topic : string;
  sm_Partition : Z;
  sm_Offset : Z;
  sm_Key : list Byte.byte;
  sm_Value : list Byte.byte
}.

(** The fields of [saramaConsumer] that [ConsumeClaim] reads. *)
Record saramaConsumer : Type := mkSaramaConsumer {
  topicConf : gmap string TopicConfig;
  sc_topicNames : list string;
  sc_procDependencies : ProcessorDependencies
}.

(** What [ConsumeClaim] works on: the messages marked on the session, the
    channel [c.failMessages], the host, the log and the result variable
    [e]. *)
Record ClaimState : Type := mkClaimState {
  cs_marked : list sarama_ConsumerMessage;
  cs_failMessages : Chan failedMessage;
  cs_host : Host;
  cs_log : Log;
  cs_e : option error
}.

Definition cs_logged (entry : LogEntry) (st : ClaimState) : ClaimState :=
  mkClaimState (cs_marked st) (cs_failMessages st) (cs_host st)
    (cs_log st ++ [entry]) (cs_e st).

(** Modelled from the spec: [newSaramaMessage], as [newKafkaGoMessage]. *)
Definition newSaramaMessage (msg : sarama_ConsumerMessage)
    (codec : option Codec) : Message :=
  mkMessage (sm_Topic msg) (sm_Partition msg) (sm_Offset msg) (sm_Key msg)
    (decode_with codec (sm_Value msg)) (sm_Value msg).

Definition messageClaimed : string := "message claimed".

(** One pass through the [for] of [ConsumeClaim] in which the [select]
    took a message from [claim.Messages()]. *)
Definition claimBody (c : saramaConsumer) (msg : sarama_ConsumerMessage)
    (st : ClaimState) : LoopOutcome ClaimState :=
  let conf := topicConf_lookup (topicConf c) (sm_Topic msg) in
  if decide (Name conf = "" ∨ messageCodec conf = None) then
    let st :=
      mkClaimState (cs_marked st) (cs_failMessages st) (cs_host st)
        (cs_log st) (Some errTopicConfMissing) in
    Continue (cs_logged (LogError LogCatKafkaConsume errTopicConfMissing) st)
  else
    let m := newSaramaMessage msg (messageCodec conf) in
    let st :=
      cs_logged
        (LogInfo LogCatKafkaConsume
           (infoEvent messageClaimed (sm_Topic msg) (sm_Partition msg)
              (sm_Offset msg))) st in
    match MessageProcessor conf with
    | None => Panic nilDereference st
    | Some process =>
        let '(e, host) := process (sc_procDependencies c) m (cs_host st) in
        let st :=
          mkClaimState (cs_marked st) (cs_failMessages st) host (cs_log st) e in
        match e with
        | Some err =>
            let st := cs_logged (LogError LogCatKafkaProcessMessage err) st in
            let st :=
              if decide (FailedProcessingTopic conf ≠ "") then
                let '(ch, entry) :=
                  forwardFailed
                    (newFailedMessage m (FailedProcessingTopic conf) err)
                    (sm_Topic msg) (int32 (sm_Partition msg)) (sm_Offset msg)
                    (cs_failMessages st) in
                cs_logged entry
                  (mkClaimState (cs_marked st) ch (cs_host st) (cs_log st)
                     (cs_e st))
              else st in
            Continue st
        | None =>
            (* session.MarkMessage(msg, "") *)
            Continue
              (mkClaimState (cs_marked st ++ [msg]) (cs_failMessages st)
                 (cs_host st) (cs_log st) (cs_e st))
        end
    end.

(** What the [select] of [ConsumeClaim] can take: a message of the claim,
    the zero value of a closed message channel, or the end of the session's
    context. *)
Inductive ClaimEvent : Type :=
  | ClaimMessage (msg : sarama_ConsumerMessage)
  | MessagesClosed
  | ContextDone.

(** [ConsumeClaim], driven by the events its [select] takes, in order. *)
Fixpoint ConsumeClaim (c : saramaConsumer) (events : list ClaimEvent)
    (st : ClaimState) : CallRun ClaimState :=
  match events with
  | [] => Blocked st
  | ContextDone :: _ => Result None st
  | MessagesClosed :: _ => Crashed nilDereference st
  | ClaimMessage msg :: rest =>
      match claimBody c msg st with
      | Continue st' => ConsumeClaim c rest st'
      | Return st' => Result (cs_e st') st'
      | Panic why st' => Crashed why st'
      end
  end.

(** ** The sarama producer *)

(** [sarama.Encoder] values the producer builds.  [StringEncoder] is
    sarama's.  Modelled from the spec: the two encoders of the package
    ([encoder.go] is not part of the sources at hand): raw bytes are
    wrapped with the topic's codec and tagged with the topic name, a
    structured payload is handed to the codec's encoder. *)
Inductive Encoder : Type :=
  | StringEncoder (s : string)
  | saramaByteEncoder (topic : string) (raw : list Byte.byte) (codec : Codec)
  | saramaStructEncoder (topic : string) (encoded : list Byte.byte).

(** [sarama.ProducerMessage]; a nil [Value] is [None]. *)
Record ProducerMessage : Type := mkProducerMessage {
  pm_Topic : string;
  pm_Key : Encoder;
  pm_Value : option Encoder
}.

(** The dynamic type of the value in the field [producer interface{}]:
    sarama's sync producer, which implements [sarama.SyncProducer] only, its
    async producer, which implements [sarama.AsyncProducer] only, or nil. *)
Inductive ProducerHandle : Type :=
  | SyncProducer
  | AsyncProducer
  | NilProducer.

(** The checked and the unchecked type assertion
    [p.producer.(sarama.AsyncProducer)]: [None] is the failure, on which
    the unchecked form panics. *)
Definition assertAsyncProducer (h : ProducerHandle) : option ProducerHandle :=
  match h with
  | AsyncProducer => Some AsyncProducer
  | _ => None
  end.

Inductive producerType : Type :=
  | ProducerTypeSync
  | ProducerTypeAsync
  | ProducerTypeOther (name : string).

(** [saramaProducer]. *)
Record saramaProducer : Type := mkSaramaProducer {
  producer : ProducerHandle;
  sp_topicConf : gmap string TopicConfig;
  initialized : bool
}.

(** What the producer acts on: the log, the values the codecs were asked to
    encode, the messages passed to [SendMessage], the messages put on the
    async producer's input channel, and the broker's answer to the [n]-th
    [SendMessage] (counted from 0). *)
Record ProducerWorld : Type := mkProducerWorld {
  pw_log : Log;
  pw_encoded : list GoValue;
  pw_sent : list ProducerMessage;
  pw_input : list ProducerMessage;
  pw_ack : nat → option error
}.

Definition pw_logged (entry : LogEntry) (w : ProducerWorld) : ProducerWorld :=
  mkProducerWorld (pw_log w ++ [entry]) (pw_encoded w) (pw_sent w)
    (pw_input w) (pw_ack w).

(** The broker calls made so far, of either kind. *)
Definition brokerCalls (w : ProducerWorld) : list ProducerMessage :=
  pw_sent w ++ pw_input w.

(** [fmt.Sprint] of a float: Go's shortest decimal form of the value with
    the given bit pattern at the given width.  It is the standard
    library's, and an input of the model. *)
Variable formatFloat : Z → Z → string.

Definition newSaramaByteEncoder (topic : string) (raw : list Byte.byte)
    (codec : Codec) : Encoder :=
  saramaByteEncoder topic raw codec.

Definition newSaramaStructEncoder (topic : string) (msg : GoValue)
    (codec : Codec) (w : ProducerWorld)
  : option Encoder * option error * ProducerWorld :=
  let w :=
    mkProducerWorld (pw_log w) (pw_encoded w ++ [msg]) (pw_sent w)
      (pw_input w) (pw_ack w) in
  match codec_encode codec msg with
  | inl b => (Some (saramaStructEncoder topic b), None, w)
  | inr e => (None, Some e, w)
  end.

(** [getSaramaEncoder]: the results [s] and [e], both nil until set. *)
Definition getSaramaEncoder (conf : TopicConfig) (msg : GoValue)
    (w : ProducerWorld) : option Encoder * option error * ProducerWorld :=
  match messageCodec conf with
  | None =>
      (None, None, pw_logged (LogError LogCatKafkaProduce (errCodecNil (Name conf))) w)
  | Some codec =>
      let '(s, e, w) :=
        match msg with
        | VString str => (Some (StringEncoder str), None, w)
        | VBytes b => (Some (newSaramaByteEncoder (Name conf) b codec), None, w)
        | VInt32 n | VInt64 n => (Some (StringEncoder (pretty n)), None, w)
        | VFloat32 bits => (Some (StringEncoder (formatFloat 32 bits)), None, w)
        | VFloat64 bits => (Some (StringEncoder (formatFloat 64 bits)), None, w)
        | _ =>
            if decide (reflect_Kind msg = KStruct)
            then newSaramaStructEncoder (Name conf) msg codec w
            else (None, Some errMessageType, w)
        end in
      match e with
      | Some err => (s, e, pw_logged (LogError LogCatKafkaEncode err) w)
      | None => (s, e, w)
      end
  end.

(** [SendMessage] on the sync producer. *)
Definition SendMessage (m : ProducerMessage) (w : ProducerWorld)
  : option error * ProducerWorld :=
  (pw_ack w (length (pw_sent w)),
   mkProducerWorld (pw_log w) (pw_encoded w) (pw_sent w ++ [m]) (pw_input w)
     (pw_ack w)).

(** [Input() <- m] on the async producer. *)
Definition enqueue (m : ProducerMessage) (w : ProducerWorld) : ProducerWorld :=
  mkProducerWorld (pw_log w) (pw_encoded w) (pw_sent w) (pw_input w ++ [m])
    (pw_ack w).

(** [produceMessage]. *)
Definition produceMessage (p : saramaProducer) (topic key : string)
    (msg : GoValue) (w : ProducerWorld) : option error * ProducerWorld :=
  let '(se, e, w) :=
    getSaramaEncoder (topicConf_lookup (sp_topicConf p) topic) msg w in
  match e with
  | Some err => (e, pw_logged (LogError LogCatKafkaProduce err) w)
  | None =>
      let m := mkProducerMessage topic (StringEncoder key) se in
      let '(e, w) :=
        match producer p with
        | SyncProducer => SendMessage m w
        | AsyncProducer => (None, enqueue m w)
        | NilProducer => (Some errInvalidProducer, w)
        end in
      match e with
      | Some err => (e, pw_logged (LogError LogCatKafkaProduce err) w)
      | None => (e, w)
      end
  end.

(** What the response channels of the async producer deliver. *)
Inductive AsyncResponse : Type :=
  | Success (topic : string) (partition offset : Z)
  | Failure (topic : string) (cause : error).

Definition assertionFailed : string :=
  "interface conversion: interface {} is not sarama.AsyncProducer".

(** [handleAsyncResponses], driven by the responses its [select] takes.
    Each pass evaluates the channel operands of the [select] first, and
    with them the unchecked assertion of [p.producer]. *)
Fixpoint handleAsyncResponses (h : ProducerHandle)
    (responses : list AsyncResponse) (lg : Log) : LoopRun Log :=
  match assertAsyncProducer h with
  | None => Panicked assertionFailed lg
  | Some _ =>
      match responses with
      | [] => Running lg
      | Success topic partition offset :: rest =>
          handleAsyncResponses h rest
            (lg ++ [LogInfo LogCatKafkaProduce
                      (infoProduceSuccess topic partition offset)])
      | Failure topic cause :: rest =>
          handleAsyncResponses h rest
            (lg ++ [LogError2 LogCatKafkaProduce (errProduceFail topic) cause])
      end
  end.

(** A goroutine started by a [go] statement of the producer. *)
Inductive Goroutine : Type :=
  | go_handleAsyncResponses (h : ProducerHandle).

(** [newSaramaProducer]: [dial] is the result of sarama's constructor of
    the requested producer, [None] when it succeeds.  Besides [p] and [e]
    the model returns the goroutines started. *)
Definition newSaramaProducer (prodType : producerType) (dial : option error)
    (conf : gmap string TopicConfig) (lg : Log)
  : saramaProducer * option error * list Goroutine * Log :=
  let '(h, e) :=
    match prodType with
    | ProducerTypeSync =>
        (match dial with None => SyncProducer | Some _ => NilProducer end, dial)
    | ProducerTypeAsync =>
        (match dial with None => AsyncProducer | Some _ => NilProducer end, dial)
    | ProducerTypeOther _ => (NilProducer, Some errInvalidProducer)
    end in
  match e with
  | Some err =>
      (mkSaramaProducer h ∅ false, e, [],
       lg ++ [LogError LogCatKafkaProducerInit err])
  | None =>
      (mkSaramaProducer h conf true, None, [go_handleAsyncResponses h], lg)
  end.

(** Running a started goroutine on the responses that arrive. *)
Definition runGoroutine (g : Goroutine) (responses : list AsyncResponse)
    (lg : Log) : LoopRun Log :=
  match g with
  | go_handleAsyncResponses h => handleAsyncResponses h responses lg
  end.

End Host.

Arguments Processor : clear implicits.
Arguments TopicConfig : clear implicits.
Arguments kafkagoConsumer : clear implicits.
Arguments LoopState : clear implicits.
Arguments saramaConsumer : clear implicits.
Arguments ClaimState : clear implicits.
Arguments saramaProducer : clear implicits.

(** ** Construction of the consumers *)

(** A [chan bool] used as a one-shot signal, as the runtime sees it: the
    capacity, the buffered values and whether it has been closed. *)
Record Gate : Type := mkGate {
  gate_cap : nat;
  gate_buf : list bool;
  gate_closed : bool
}.

(** [make(chan bool)] and [make(chan bool, n)]. *)
Definition make_gate (n : nat) : Gate := mkGate n [] false.

(** The receive case of a [select] with a [default]: a buffered value if
    there is one, the zero value if the channel is closed, and otherwise
    [None], which selects the default case. *)
Definition tryRecv (g : Gate) : option (bool * Gate) :=
  match gate_buf g with
  | x :: rest => Some (x, mkGate (gate_cap g) rest (gate_closed g))
  | [] => if gate_closed g then Some (false, g) else None
  end.

(** [close(ch)]; closing a closed channel panics, which is [None]. *)
Definition closeGate (g : Gate) : option Gate :=
  if gate_closed g then None
  else Some (mkGate (gate_cap g) (gate_buf g) true).

Definition closeOfClosed : string := "close of closed channel".

(** The categories of the log lines of construction and shutdown. *)
Inductive InitLogCat : Type :=
  | LogCatKafkaConsumerInit
  | LogCatKafkaConsumerClose.

(** How a constructor ends: with the value it returns and the error beside
    it, or in a panic.  [logged] is what it passed to [lg.Error]. *)
Inductive Built (C : Type) : Type :=
  | BuiltWith (c : C) (e : option error) (logged : list (InitLogCat * error))
  | BuildPanic (why : string).
Arguments BuiltWith {C}.
Arguments BuildPanic {C}.

(** The [select] both constructors end with: a receive from
    [c.initialized], or by default its [close]. *)
Definition markInitialized (g : Gate) : option Gate :=
  match tryRecv g with
  | Some (_, g') => Some g'
  | None => closeGate g
  end.

Section Construction.

Context {ProcessorDependencies Host : Type}.

(** The [kafkagoConsumer] a constructor returns: the fields the loops read,
    with the two channels; a nil channel is [None].  The zero value, which
    is returned beside an error, is [None] as a whole. *)
Record kafkagoBuilt : Type := mkKafkagoBuilt {
  kb_consumer : kafkagoConsumer ProcessorDependencies Host;
  kb_initialized : Gate;
  kb_failMessages : Chan failedMessage
}.

(** [newKafkagoConsumer]: [dial] is the result of
    [kafka.NewConsumerGroup], [None] when it succeeds. *)
Definition newKafkagoConsumer (names : list string)
    (topicConf : gmap string (TopicConfig ProcessorDependencies Host))
    (pd : ProcessorDependencies) (dial : option error)
  : Built (option kafkagoBuilt) :=
  match dial with
  | Some e => BuiltWith None (Some e) [(LogCatKafkaConsumerInit, e)]
  | None =>
      let c := mkKafkagoConsumer names topicConf pd in
      let initialized := make_gate 1 in
      let failMessages := make_chan 0 in
      match markInitialized initialized with
      | Some initialized =>
          BuiltWith (Some (mkKafkagoBuilt c initialized failMessages)) None []
      | None => BuildPanic closeOfClosed
      end
  end.

(** The [saramaConsumer] a constructor returns; it is filled in before the
    group is created, so that beside an error it lacks only the group and
    the two channels that are made afterwards. *)
Record saramaBuilt : Type := mkSaramaBuilt {
  sb_consumer : saramaConsumer ProcessorDependencies Host;
  sb_ready : Gate;
  sb_initialized : option Gate;
  sb_failMessages : option (Chan failedMessage)
}.

(** [newSaramaConsumer]: [dial] is the result of
    [sarama.NewConsumerGroup]. *)
Definition newSaramaConsumer
    (conf : gmap string (TopicConfig ProcessorDependencies Host))
    (names : list string) (pd : ProcessorDependencies) (dial : option error)
  : Built saramaBuilt :=
  let c := mkSaramaConsumer conf names pd in
  let ready := make_gate 0 in
  match dial with
  | Some e =>
      BuiltWith (mkSaramaBuilt c ready None None) (Some e)
        [(LogCatKafkaConsumerInit, e)]
  | None =>
      let initialized := make_gate 1 in
      let failMessages := make_chan 0 in
      match markInitialized initialized with
      | Some initialized =>
          BuiltWith
            (mkSaramaBuilt c ready (Some initialized) (Some failMessages))
            None []
      | None => BuildPanic closeOfClosed
      end
  end.

End Construction.

Arguments kafkagoBuilt : clear implicits.
Arguments saramaBuilt : clear implicits.

(** ** The driver of the sarama backend *)

(** What the goroutine of [startConsume] does besides calling [Consume]. *)
Inductive DriverEvent : Type :=
  | ConsumeErrorLogged (e : error)
  | Slept5s
  | ReadyRemade.

(** The channels that [c.ready] has referred to, oldest first, each with
    its closed flag; [c.ready] itself, as an index into them; and what the
    driver has done. *)
Record DriverState : Type := mkDriverState {
  ds_chans : list bool;
  ds_ready : nat;
  ds_trace : list DriverEvent
}.

(** The state the constructor leaves: [ready: make(chan bool)]. *)
Definition driver_init : DriverState := mkDriverState [false] 0%nat [].

(** [Setup]: [close(c.ready)], then a nil error.  [None] is the panic of
    closing a closed channel. *)
Definition Setup (st : DriverState) : option (option error * DriverState) :=
  match ds_chans st !! ds_ready st with
  | Some false =>
      Some (None,
            mkDriverState (<[ds_ready st := true]> (ds_chans st))
              (ds_ready st) (ds_trace st))
  | _ => None
  end.

(** [Cleanup]. *)
Definition Cleanup : option error := None.

(** One call of [c.group.Consume] as the driver sees it: whether sarama
    started a session in it, and so ran [Setup], which it does at most once
    per call; the error the call returned; and whether [c.ctx] is cancelled
    once it has returned. *)
Record ConsumeCall : Type := mkConsumeCall {
  cc_session : bool;
  cc_err : option error;
  cc_cancelled : bool
}.

(** The goroutine of the sarama [startConsume], driven by the calls of
    [Consume] that return, in order. *)
Fixpoint consumeDriver (calls : list ConsumeCall) (st : DriverState)
  : LoopRun DriverState :=
  match calls with
  | [] => Running st
  | call :: rest =>
      match (if cc_session call then snd <$> Setup st else Some st) with
      | None => Panicked closeOfClosed st
      | Some st =>
          let st :=
            match cc_err call with
            | Some e =>
                mkDriverState (ds_chans st) (ds_ready st)
                  (ds_trace st ++ [ConsumeErrorLogged e; Slept5s])
            | None => st
            end in
          if cc_cancelled call then Returned st
          else
            (* c.ready = make(chan bool) *)
            consumeDriver rest
              (mkDriverState (ds_chans st ++ [false]) (length (ds_chans st))
                 (ds_trace st ++ [ReadyRemade]))
      end
  end.

(** The state of a loop, however its run stands. *)
Definition loop_state {S : Type} (r : LoopRun S) : S :=
  match r with
  | Running st | Returned st | Panicked _ st => st
  end.

(** ** Observations used in the properties *)

(** The offset that a list of commit calls carries for one partition, call
    by call. *)
Definition offsets_for (topic : string) (partition : Z)
    (calls : list (gmap string (gmap Z Z))) : list (option Z) :=
  (λ call, call !! topic ≫= (.!! partition)) <$> calls.

(** The channel can take a value at once: a receiver is parked on it or
    its buffer has room. *)
Definition can_accept {A : Type} (ch : Chan A) : Prop :=
  (0 < ch_recvq ch)%nat ∨ (length (ch_buf ch) < ch_cap ch)%nat.

(** The log lines of the two cases of the forwarding [select]. *)
Definition forwardingEntry (entry : LogEntry) : bool :=
  match entry with
  | LogInfo LogCatKafkaConsume (infoEvent text _ _ _) =>
      bool_decide (text = sentToFailHandler)
  | LogError LogCatKafkaConsume (errEvent text _ _ _) =>
      bool_decide (text = notSentToFailHandler)
  | _ => false
  end.

(** What one forwarding attempt does to the channel, from [ch] to [ch'],
    and which of the log lines [new] of the pass come from the forwarding
    [select]: when the channel can take the message at once, the receiving
    side gets it, once, and the only such line reports the hand-over; when
    it cannot, the channel is as before and the only such line reports the
    failure to forward. *)
Definition forwardedOnce (fm : failedMessage) (topic : string)
    (partition offset : Z) (ch ch' : Chan failedMessage) (new : Log) : Prop :=
  (can_accept ch →
   ch_delivered ch' ≡ₚ ch_delivered ch ++ [fm]
   ∧ List.filter forwardingEntry new
     = [LogInfo LogCatKafkaConsume
          (infoEvent sentToFailHandler topic partition offset)])
  ∧ (¬ can_accept ch →
     ch' = ch
     ∧ List.filter forwardingEntry new
       = [LogError LogCatKafkaConsume
            (errEvent notSentToFailHandler topic partition offset)]).

(** How [ConsumeClaim] comes to call the processor for a message: not at
    all for a topic without a populated configuration, through a nil func,
    or with a result and the host as the call leaves it. *)
Inductive Invocation (Host : Type) : Type :=
  | NotConfigured
  | NilProcessor
  | Invoked (e : option error) (host' : Host).
Arguments NotConfigured {Host}.
Arguments NilProcessor {Host}.
Arguments Invoked {Host}.

Definition invocation {PD Host : Type} (c : saramaConsumer PD Host)
    (msg : sarama_ConsumerMessage) (h : Host) : Invocation Host :=
  let conf := topicConf_lookup (topicConf c) (sm_Topic msg) in
  if decide (Name conf = "" ∨ messageCodec conf = None) then NotConfigured
  else match MessageProcessor conf with
       | None => NilProcessor
       | Some process =>
           let '(e, h') :=
             process (sc_procDependencies c)
               (newSaramaMessage msg (messageCodec conf)) h in
           Invoked e h'
       end.

(** The messages of a claim whose processor invocation returns no error,
    the processor being called on message after message until the context
    is done or the goroutine panics. *)
Fixpoint acknowledged {PD Host : Type} (c : saramaConsumer PD Host)
    (events : list ClaimEvent) (h : Host) : list sarama_ConsumerMessage :=
  match events with
  | ClaimMessage msg :: rest =>
      match invocation c msg h with
      | Invoked None h' => msg :: acknowledged c rest h'
      | Invoked (Some _) h' => acknowledged c rest h'
      | NotConfigured => acknowledged c rest h
      | NilProcessor => []
      end
  | _ => []
  end.

(** The state a call is in, however it stands. *)
Definition run_state {S : Type} (r : CallRun S) : S :=
  match r with
  | Blocked st | Result _ st | Crashed _ st => st
  end.

(** [fmt.Sprint] of a payload of one of the four numeric types of the
    producer's type switch; [None] for every other payload. *)
Definition numericText (formatFloat : Z → Z → string) (msg : GoValue)
  : option string :=
  match msg with
  | VInt32 n | VInt64 n => Some (pretty n)
  | VFloat32 bits => Some (formatFloat 32 bits)
  | VFloat64 bits => Some (formatFloat 64 bits)
  | _ => None
  end.

(** A payload that is neither text, nor raw bytes, nor of one of the four
    numeric types, nor a struct. *)
Definition unsupportedShape (msg : GoValue) : Prop :=
  match msg with
  | VOther k => k ≠ KStruct
  | _ => False
  end.

(** The coordinator never stands in a call of [c.group.Next] while a
    partition loop is running. *)
Definition waits_for_loops {PD Host : Type} (c : kafkagoConsumer PD Host)
  : Prop :=
  ∀ s, reachable c s → sc_pc s = InNext → sc_loops s = [].

(** What a partition loop holds apart from the generation and the log: its
    reader, its [offset], the channel and the host. *)
Definition ls_core {Host : Type} (st : LoopState Host)
  : Reader * Z * Chan failedMessage * Host :=
  (ls_reader st, ls_offset st, ls_failMessages st, ls_host st).

(** The same loop with another generation and another log. *)
Definition ls_with_gen {Host : Type} (g : Generation) (lg : Log)
    (st : LoopState Host) : LoopState Host :=
  mkLoopState (ls_reader st) (ls_offset st) g (ls_failMessages st)
    (ls_host st) lg.

Definition outcome_state {S : Type} (o : LoopOutcome S) : S :=
  match o with
  | Continue st | Return st | Panic _ st => st
  end.

Definition outcome_map {S T : Type} (f : S → T) (o : LoopOutcome S)
  : LoopOutcome T :=
  match o with
  | Continue st => Continue (f st)
  | Return st => Return (f st)
  | Panic why st => Panic why (f st)
  end.

Definition run_map {S T : Type} (f : S → T) (r : LoopRun S) : LoopRun T :=
  match r with
  | Running st => Running (f st)
  | Returned st => Returned (f st)
  | Panicked why st => Panicked why (f st)
  end.

(** The broker has a record for a reader at each of the [n] offsets from
    [first] on, and each record carries the offset it is read at. *)
Definition serves (r : Reader) (first : Z) (n : nat) : Prop :=
  ∀ o, first ≤ o < first + Z.of_nat n →
       ∃ msg, rd_fetch r o = Some msg ∧ km_Offset msg = o.

(** The group coordinator accepts every commit. *)
Definition accepts_commits (g : Generation) : Prop :=
  ∀ k, gen_commit_result g k = None.

(** The partition a loop reads, with its topic. *)
Definition task_partition (t : LoopTask) : string * Z :=
  (lt_topic t, lt_partition t).

(** The loops started in a generation are among the loops of the
    generation, each at most as often as it is due. *)
Definition started_due {PD Host : Type} (c : kafkagoConsumer PD Host)
    (s : Sched) : Prop :=
  ∀ g, sc_gen s = Some g →
       sc_started s ⊆+ concat (consumeTopic g <$> topicNames c).

(** The messages among the events of a claim, in order. *)
Definition claimedMessages (events : list ClaimEvent)
  : list sarama_ConsumerMessage :=
  omap (λ ev, match ev with ClaimMessage msg => Some msg | _ => None end)
    events.

(** [c.ready] is the channel made last, and it is open. *)
Definition driver_ok (st : DriverState) : Prop :=
  ds_chans st !! ds_ready st = Some false
  ∧ S (ds_ready st) = length (ds_chans st).

(** The log line [handleAsyncResponses] writes for a response. *)
Definition responseEntry (r : AsyncResponse) : LogEntry :=
  match r with
  | Success topic partition offset =>
      LogInfo LogCatKafkaProduce (infoProduceSuccess topic partition offset)
  | Failure topic cause =>
      LogError2 LogCatKafkaProduce (errProduceFail topic) cause
  end.

(** The number of messages a claim delivers before its first event of
    another kind. *)
Fixpoint leadingMessages (events : list ClaimEvent) : nat :=
  match events with
  | ClaimMessage _ :: rest => S (leadingMessages rest)
  | _ => 0%nat
  end.

(** ** Sample inputs *)

(** A host that counts the processor's invocations; the sample processor
    fails on its first invocation and succeeds from then on. *)
Definition ex_processor : Processor unit nat :=
  λ _ _ h, (if decide (h = 0%nat) then Some (extError "boom") else None, S h).

Definition ex_codec : Codec :=
  mkCodec (λ _, inl []) (λ raw, inl (VBytes raw)).

(** Topic "orders" with dead-letter topic "orders-failed". *)
Definition ex_conf : TopicConfig unit nat :=
  mkTopicConfig "orders" (Some ex_codec) (Some ex_processor) "orders-failed".

(** The same topic without a dead-letter topic. *)
Definition ex_conf_plain : TopicConfig unit nat :=
  mkTopicConfig "orders" (Some ex_codec) (Some ex_processor) "".

(** An entry that names a processor only. *)
Definition ex_conf_bare : TopicConfig unit nat :=
  mkTopicConfig "" None (Some ex_processor) "".

(** An entry for a topic without a codec. *)
Definition ex_conf_nocodec : TopicConfig unit nat :=
  mkTopicConfig "orders" None (Some ex_processor) "".

Definition ex_consumer : kafkagoConsumer unit nat :=
  mkKafkagoConsumer ["orders"] {[ "orders" := ex_conf ]} tt.

(** A consumer subscribed to "orders" whose registry is empty. *)
Definition ex_consumer_unconfigured : kafkagoConsumer unit nat :=
  mkKafkagoConsumer ["orders"] ∅ tt.

Definition ex_consumer_bare : kafkagoConsumer unit nat :=
  mkKafkagoConsumer ["orders"] {[ "orders" := ex_conf_bare ]} tt.

(** Partition 0 of "orders": a record at every offset from 0 on. *)
Definition ex_fetch (o : Z) : option kafka_Message :=
  if decide (0 ≤ o) then Some (mkKafkaMessage "orders" 0 o [] []) else None.

(** A generation that owns partition 0 of "orders" from offset 42 and whose
    commits all succeed. *)
Definition ex_gen : Generation :=
  mkGeneration {[ "orders" := [mkAssignment 0 42] ]} (λ _, None) [] ∅.

(** The same generation with a coordinator that refuses every commit. *)
Definition ex_gen_refusing : Generation :=
  mkGeneration {[ "orders" := [mkAssignment 0 42] ]}
    (λ _, Some (extError "coordinator not available")) [] ∅.

(** The channel [make(chan failedMessage)] with the router parked on it,
    and with nobody receiving. *)
Definition ex_chan_listening : Chan failedMessage := mkChan 0 [] 1 [].
Definition ex_chan_idle : Chan failedMessage := make_chan 0.

(** A partition loop about to read offset 42. *)
Definition ex_state : LoopState nat :=
  mkLoopState (mkReader ex_fetch 42 false) 42 ex_gen ex_chan_listening 0%nat [].

Definition ex_sarama_msg : sarama_ConsumerMessage :=
  mkSaramaMessage "orders" 0 42 [] [].

Definition ex_sarama : saramaConsumer unit nat :=
  mkSaramaConsumer {[ "orders" := ex_conf ]} ["orders"] tt.

Definition ex_claim_state : ClaimState nat :=
  mkClaimState [] ex_chan_listening 0%nat [] None.

Definition ex_formatFloat (width bits : Z) : string := "0".

Definition ex_world : ProducerWorld :=
  mkProducerWorld [] [] [] [] (λ _, None).

Definition ex_sync_producer (conf : TopicConfig unit nat)
  : saramaProducer unit nat :=
  mkSaramaProducer SyncProducer {[ "orders" := conf ]} true.

(** The same loop once the processor has been through its failure. *)
Definition ex_state_later : LoopState nat :=
  mkLoopState (mkReader ex_fetch 42 false) 42 ex_gen ex_chan_listening 1%nat [].

(** The first generation of [ex_consumer] at the moment the only
    [consumeTopic] goroutine has returned: the coordinator is in [Wait],
    the loop on partition 0 of "orders" is running. *)
Definition ex_sched_waiting : Sched :=
  mkSched AtWait (Some ex_gen) 0 [] [mkLoopTask "orders" 0 42]
    [mkLoopTask "orders" 0 42] 1%nat [].

Definition ex_moves : list Move :=
  [CoordCallsNext; NextReturns (inl ex_gen); CoordGo; CoordGo; TopicRuns 0].

(** A processor that always succeeds and one that always fails, with the
    topics that use them. *)
Definition ex_processor_ok : Processor unit nat := λ _ _ h, (None, S h).

Definition ex_processor_bad : Processor unit nat :=
  λ _ _ h, (Some (extError "boom"), S h).

Definition ex_conf_ok : TopicConfig unit nat :=
  mkTopicConfig "orders" (Some ex_codec) (Some ex_processor_ok) "orders-failed".

Definition ex_conf_bad : TopicConfig unit nat :=
  mkTopicConfig "orders" (Some ex_codec) (Some ex_processor_bad) "orders-failed".

(** A codec that refuses to encode, and a topic with it. *)
Definition ex_codec_failing : Codec :=
  mkCodec (λ _, inr (extError "schema")) (λ raw, inl (VBytes raw)).

Definition ex_conf_failing : TopicConfig unit nat :=
  mkTopicConfig "orders" (Some ex_codec_failing) (Some ex_processor_ok) "".

(** A loop on a partition that delivers nothing before its context ends. *)
Definition ex_state_ended : LoopState nat :=
  mkLoopState (mkReader (λ _, None) 42 false) 42 ex_gen ex_chan_idle 0%nat [].

(** A loop about to read offset 42 on the fail channel as it is made, and
    one with two receivers waiting. *)
Definition ex_state_idle : LoopState nat :=
  mkLoopState (mkReader ex_fetch 42 false) 42 ex_gen ex_chan_idle 0%nat [].

Definition ex_state_two_receivers : LoopState nat :=
  mkLoopState (mkReader ex_fetch 42 false) 42 ex_gen (mkChan 0 [] 2 [])
    0%nat [].

Definition ex_record_42 : kafka_Message := mkKafkaMessage "orders" 0 42 [] [].

(** Two calls of [Consume]: the first fails before a session starts, the
    second starts one and returns with the context cancelled. *)
Definition ex_calls : list ConsumeCall :=
  [mkConsumeCall false (Some (extError "no brokers")) false;
   mkConsumeCall true None true].

(** A generation that assigns nothing, after its only [consumeTopic] has
    returned. *)
Definition ex_gen_unassigned : Generation :=
  mkGeneration ∅ (λ _, None) [] ∅.

Definition ex_sched_unassigned : Sched :=
  mkSched AtWait (Some ex_gen_unassigned) 0 [] [] [] 1%nat [].

Definition ex_moves_unassigned : list Move :=
  [CoordCallsNext; NextReturns (inl ex_gen_unassigned); CoordGo; CoordGo;
   TopicRuns 0].

(** A sarama consumer whose registry has the bare entry for "orders". *)
Definition ex_sarama_bare : saramaConsumer unit nat :=
  mkSaramaConsumer {[ "orders" := ex_conf_bare ]} ["orders"] tt.

(** * Properties *)

(** ** Offset commits *)

Lemma committed_after_merge (topic : string) (partition offset : Z)
    (old : gmap string (gmap Z Z)) :
  merge_offsets (offset_map topic partition offset) old !! topic
    ≫= (.!! partition) = Some offset.
Proof.
  unfold merge_offsets, offset_map.
  rewrite lookup_union_with, lookup_singleton_eq.
  destruct (old !! topic) as [ps|]; simpl.
  - rewrite lookup_union, lookup_singleton_eq. by destruct (ps !! partition).
  - by rewrite lookup_singleton_eq.
Qed.

Lemma CommitOffsets_calls (g : Generation) (offs : gmap string (gmap Z Z)) :
  gen_commit_calls (CommitOffsets g offs).2 = gen_commit_calls g ++ [offs]
  ∧ gen_commit_result (CommitOffsets g offs).2 = gen_commit_result g
  ∧ (CommitOffsets g offs).1
    = gen_commit_result g (length (gen_commit_calls g)).
Proof. done. Qed.

(** The commit calls that [commitOffset] adds, by the coordinator's answers
    to the first and to the second of them. *)
Lemma commitOffset_calls (topic : string) (partition offset : Z)
    (g : Generation) (lg : Log) :
  let n := length (gen_commit_calls g) in
  gen_commit_calls (commitOffset topic partition offset g lg).1
  = gen_commit_calls g
    ++ match gen_commit_result g n with
       | None => [offset_map topic partition offset]
       | Some _ =>
           [offset_map topic partition offset;
            offset_map topic partition offset]
       end.
Proof.
  unfold commitOffset, CommitOffsets; simpl.
  destruct (gen_commit_result g (length (gen_commit_calls g))) as [e1|] eqn:H1;
    simpl; [|done].
  rewrite length_app; simpl.
  destruct (gen_commit_result g (_ + 1)%nat) as [e2|]; simpl;
    by rewrite <- app_assoc.
Qed.

Lemma commitOffset_log (topic : string) (partition offset : Z)
    (g : Generation) (lg : Log) :
  let n := length (gen_commit_calls g) in
  (commitOffset topic partition offset g lg).2
  = lg ++ match gen_commit_result g n, gen_commit_result g (S n) with
          | None, _ => []
          | Some e1, None => [LogError LogCatKafkaCommitOffset (errCommit e1)]
          | Some e1, Some e2 =>
              [LogError LogCatKafkaCommitOffset (errCommit e1);
               LogError LogCatKafkaCommitOffset (errCommit e2)]
          end.
Proof.
  unfold commitOffset, CommitOffsets; simpl.
  destruct (gen_commit_result g (length (gen_commit_calls g))) as [e1|] eqn:H1;
    simpl; [|by rewrite app_nil_r].
  rewrite length_app, Nat.add_1_r; simpl.
  destruct (gen_commit_result g (S _)) as [e2|]; simpl;
    by rewrite <- ?app_assoc.
Qed.

Lemma commitOffset_committed (topic : string) (partition offset : Z)
    (g : Generation) (lg : Log) :
  let n := length (gen_commit_calls g) in
  gen_committed (commitOffset topic partition offset g lg).1
  = match gen_commit_result g n, gen_commit_result g (S n) with
    | Some _, Some _ => gen_committed g
    | _, _ =>
        merge_offsets (offset_map topic partition offset) (gen_committed g)
    end.
Proof.
  unfold commitOffset, CommitOffsets; simpl.
  destruct (gen_commit_result g (length (gen_commit_calls g))) as [e1|] eqn:H1;
    simpl; [|done].
  rewrite length_app, Nat.add_1_r; simpl.
  by destruct (gen_commit_result g (S _)) as [e2|].
Qed.

Lemma last_app_two {A : Type} (l : list A) (a b : A) :
  last (l ++ [a; b]) = Some b.
Proof.
  change (l ++ [a; b]) with (l ++ ([a] ++ [b])).
  by rewrite (assoc_L (++)), last_snoc.
Qed.

Lemma commitOffset_accepted (topic : string) (partition offset : Z)
    (g : Generation) (lg : Log) :
  gen_commit_result g (length (gen_commit_calls g)) = None →
  commitOffset topic partition offset g lg
  = (mkGeneration (Assignments g) (gen_commit_result g)
       (gen_commit_calls g ++ [offset_map topic partition offset])
       (merge_offsets (offset_map topic partition offset) (gen_committed g)),
     lg).
Proof. intros H. unfold commitOffset, CommitOffsets. by rewrite H. Qed.

Lemma ReadMessage_record (r : Reader) (msg : kafka_Message) (rd : Reader) :
  ReadMessage r = (inl msg, rd) →
  rd_closed r = false
  ∧ rd_fetch r (rd_offset r) = Some msg
  ∧ rd = mkReader (rd_fetch r) (int64 (km_Offset msg + 1)) false.
Proof.
  unfold ReadMessage. destruct (rd_closed r); [done|].
  destruct (rd_fetch r (rd_offset r)); [|done].
  intros [= -> <-]. done.
Qed.

Lemma offsets_for_offset_map (topic : string) (partition offset : Z) :
  offset_map topic partition offset !! topic ≫= (.!! partition) = Some offset.
Proof. unfold offset_map. by rewrite lookup_singleton_eq; simpl; rewrite lookup_singleton_eq. Qed.

(** ** The non-blocking send *)

Lemma trySend_accepted {A : Type} (ch : Chan A) (v : A) :
  can_accept ch →
  ∃ ch', trySend ch v = Some ch' ∧ ch_delivered ch' ≡ₚ ch_delivered ch ++ [v].
Proof.
  unfold can_accept, trySend, ch_delivered. intros Hacc.
  destruct (ch_recvq ch) as [|n] eqn:Hq.
  - destruct Hacc as [Hacc|Hacc]; [lia|].
    rewrite decide_True by done. eexists; split; [done|]; simpl.
    by rewrite app_assoc.
  - eexists; split; [done|]; simpl.
    rewrite <- !app_assoc. apply Permutation_app_head, Permutation_app_comm.
Qed.

Lemma trySend_refused {A : Type} (ch : Chan A) (v : A) :
  ¬ can_accept ch → trySend ch v = None.
Proof.
  unfold can_accept, trySend. intros Hacc.
  destruct (ch_recvq ch) as [|n]; [|exfalso; apply Hacc; lia].
  rewrite decide_False; [done|]. intros ?. apply Hacc. by right.
Qed.

(** The forwarding [select] is one send attempt: it either hands the
    message over, once, or leaves the channel as it was, and it writes the
    one log line of the case taken. *)
Lemma forwardFailed_once (fm : failedMessage) (topic : string)
    (partition offset : Z) (ch : Chan failedMessage) :
  let ch' := (forwardFailed fm topic partition offset ch).1 in
  let entry := (forwardFailed fm topic partition offset ch).2 in
  forwardingEntry entry = true
  ∧ (can_accept ch →
     ch_delivered ch' ≡ₚ ch_delivered ch ++ [fm]
     ∧ entry = LogInfo LogCatKafkaConsume
                 (infoEvent sentToFailHandler topic partition offset))
  ∧ (¬ can_accept ch →
     ch' = ch
     ∧ entry = LogError LogCatKafkaConsume
                 (errEvent notSentToFailHandler topic partition offset)).
Proof.
  unfold forwardFailed. repeat split.
  - by destruct (trySend ch fm).
  - destruct (trySend_accepted ch fm H) as (ch' & -> & Hperm). done.
  - by destruct (trySend_accepted ch fm H) as (ch' & -> & Hperm).
  - by rewrite trySend_refused.
  - by rewrite trySend_refused.
Qed.

Lemma commitOffset_log_frame (topic : string) (partition offset : Z)
    (g : Generation) (lg : Log) :
  ∃ new, (commitOffset topic partition offset g lg).2 = lg ++ new
         ∧ List.filter forwardingEntry new = [].
Proof.
  rewrite commitOffset_log.
  destruct (gen_commit_result g _) as [e1|];
    [destruct (gen_commit_result g _) as [e2|]|]; by eexists.
Qed.

Section Properties.

Context {PD Host : Type}.

#[local] Abbreviation TopicConf := (TopicConfig PD Host).
#[local] Abbreviation Loop := (LoopState Host).

(** A pass of the read loop ends the loop only on a read error, and panics
    only on a nil processor: no answer of the group coordinator to a commit
    stops it. *)
Lemma loopBody_stops_only_on_read_error (c : kafkagoConsumer PD Host)
    (conf : TopicConf) (topic : string) (partition : Z) (st : Loop) :
  match loopBody c conf topic partition st with
  | Continue _ =>
      (∃ msg, (ReadMessage (ls_reader st)).1 = inl msg)
      ∧ is_Some (MessageProcessor conf)
  | Return _ => ∃ e, (ReadMessage (ls_reader st)).1 = inr e
  | Panic _ _ => MessageProcessor conf = None
  end.
Proof.
  unfold loopBody.
  destruct (ReadMessage (ls_reader st)) as [[msg|e] rd]; simpl; [|by eexists].
  destruct (MessageProcessor conf) as [process|]; [|done].
  destruct (process _ _ _) as [e host]. split; by eexists.
Qed.

(** C3.  [commitOffset] attempts the commit once.  If the attempt succeeds
    it is the only one.  If and only if it fails, the commit is attempted
    exactly once more, with the same argument; when the retry fails too,
    both failures are in the log and nothing is committed.  [commitOffset]
    has no error result, and the loop that calls it goes on whatever the
    coordinator answers: a pass of the read loop ends the loop only on a
    read error. *)
Theorem commitOffset_retries_exactly_once (topic : string)
    (partition offset : Z) (g : Generation) (lg : Log) :
  let n := length (gen_commit_calls g) in
  let offs := offset_map topic partition offset in
  let g' := (commitOffset topic partition offset g lg).1 in
  let lg' := (commitOffset topic partition offset g lg).2 in
  match gen_commit_result g n, gen_commit_result g (S n) with
  | None, _ =>
      gen_commit_calls g' = gen_commit_calls g ++ [offs]
      ∧ lg' = lg
      ∧ committed_offset g' topic partition = Some offset
  | Some e1, None =>
      gen_commit_calls g' = gen_commit_calls g ++ [offs; offs]
      ∧ lg' = lg ++ [LogError LogCatKafkaCommitOffset (errCommit e1)]
      ∧ committed_offset g' topic partition = Some offset
  | Some e1, Some e2 =>
      gen_commit_calls g' = gen_commit_calls g ++ [offs; offs]
      ∧ lg' = lg ++ [LogError LogCatKafkaCommitOffset (errCommit e1);
                     LogError LogCatKafkaCommitOffset (errCommit e2)]
      ∧ gen_committed g' = gen_committed g
  end
  ∧ ∀ (c : kafkagoConsumer PD Host) (conf : TopicConf) (st : Loop),
      match loopBody c conf topic partition st with
      | Continue _ => True
      | Return _ => ∃ e, (ReadMessage (ls_reader st)).1 = inr e
      | Panic _ _ => MessageProcessor conf = None
      end.
Proof.
  intros n offs g' lg'. split.
  - pose proof (commitOffset_calls topic partition offset g lg) as Hc.
    pose proof (commitOffset_log topic partition offset g lg) as Hl.
    pose proof (commitOffset_committed topic partition offset g lg) as Hm.
    simpl in Hc, Hl, Hm. fold n g' lg' in Hc, Hl, Hm.
    unfold committed_offset. rewrite Hc, Hl, Hm.
    destruct (gen_commit_result g n) as [e1|];
      [destruct (gen_commit_result g (S n)) as [e2|]|];
      rewrite ?app_nil_r, ?committed_after_merge; done.
  - intros c conf st.
    pose proof (loopBody_stops_only_on_read_error c conf topic partition st).
    by destruct (loopBody c conf topic partition st).
Qed.

(** C1 (as the code behaves).  When the processor fails on the record at
    offset [o] and the coordinator accepts commits, one pass of the read
    loop puts the reader back at [o], commits [o-1] and goes on; on its way
    to the next pass it also commits [o] itself, through the commit that
    follows the failure branch, so the committed offset ends at [o], not at
    [o-1]. *)
Theorem loopBody_failure_commits_failed_offset (c : kafkagoConsumer PD Host)
    (conf : TopicConf) (topic : string) (partition : Z) (st : Loop)
    (msg : kafka_Message) (rd : Reader) (process : Processor PD Host)
    (err : error) (host' : Host) :
  ReadMessage (ls_reader st) = (inl msg, rd) →
  MessageProcessor conf = Some process →
  process (procDependencies c) (newKafkaGoMessage msg (messageCodec conf))
    (ls_host st) = (Some err, host') →
  (∀ n, gen_commit_result (ls_gen st) n = None) →
  ∃ st',
    loopBody c conf topic partition st = Continue st'
    ∧ rd_offset (ls_reader st') = km_Offset msg
    ∧ gen_commit_calls (ls_gen st')
      = gen_commit_calls (ls_gen st)
        ++ [offset_map topic partition (int64 (km_Offset msg - 1));
            offset_map topic partition (km_Offset msg)]
    ∧ committed_offset (ls_gen st') topic partition = Some (km_Offset msg).
Proof.
  intros Hread Hproc Hfail Hok.
  destruct (ReadMessage_record _ _ _ Hread) as (Hopen & _ & ->).
  unfold loopBody. rewrite Hread, Hproc; simpl. rewrite Hfail.
  unfold onProcessingFailure; simpl.
  set (st1 := if decide (FailedProcessingTopic conf ≠ "") then _ else _).
  assert (ls_reader st1 = mkReader (rd_fetch (ls_reader st))
                            (int64 (km_Offset msg + 1)) false
          ∧ ls_offset st1 = km_Offset msg ∧ ls_gen st1 = ls_gen st)
    as (Hrd & Hoff & Hgen).
  { subst st1. destruct (decide _); [|done].
    by destruct (forwardFailed _ _ _ _ _). }
  unfold SetOffset. rewrite Hrd; simpl.
  unfold ls_commit; simpl. rewrite Hoff, Hgen.
  rewrite (commitOffset_accepted _ _ _ (ls_gen st)) by apply Hok; simpl.
  rewrite commitOffset_accepted by apply Hok; simpl.
  eexists; split; [done|]; simpl. split; [done|]. split.
  - by rewrite <- app_assoc.
  - unfold committed_offset; simpl. apply committed_after_merge.
Qed.

Lemma ls_commit_frame (topic : string) (partition offset : Z) (st : Loop) :
  ∃ new,
    ls_log (ls_commit topic partition offset st) = ls_log st ++ new
    ∧ List.filter forwardingEntry new = []
    ∧ ls_failMessages (ls_commit topic partition offset st)
      = ls_failMessages st.
Proof.
  unfold ls_commit.
  destruct (commitOffset_log_frame topic partition offset (ls_gen st)
              (ls_log st)) as (new & Hlog & Hnew).
  destruct (commitOffset _ _ _ _ _) as [g lg]; simpl in *.
  by exists new.
Qed.

(** The dead-letter hand-off of the kafka-go loop: a failed record of a
    topic with a failed-processing topic leads to one send attempt. *)
Lemma loopBody_forwards_once (c : kafkagoConsumer PD Host) (conf : TopicConf)
    (topic : string) (partition : Z) (st : Loop) (msg : kafka_Message)
    (rd : Reader) (process : Processor PD Host) (err : error) (host' : Host) :
  ReadMessage (ls_reader st) = (inl msg, rd) →
  MessageProcessor conf = Some process →
  process (procDependencies c) (newKafkaGoMessage msg (messageCodec conf))
    (ls_host st) = (Some err, host') →
  FailedProcessingTopic conf ≠ "" →
  let fm :=
    newFailedMessage (newKafkaGoMessage msg (messageCodec conf))
      (FailedProcessingTopic conf) err in
  ∃ st' new,
    loopBody c conf topic partition st = Continue st'
    ∧ ls_log st' = ls_log st ++ new
    ∧ forwardedOnce fm (km_Topic msg) (int32 (km_Partition msg))
        (km_Offset msg) (ls_failMessages st) (ls_failMessages st') new.
Proof.
  intros Hread Hproc Hfail Hdlt fm.
  destruct (ReadMessage_record _ _ _ Hread) as (Hopen & _ & ->).
  unfold loopBody. rewrite Hread, Hproc; simpl. rewrite Hfail.
  unfold onProcessingFailure; simpl. rewrite decide_True by done.
  fold fm.
  pose proof (forwardFailed_once fm (km_Topic msg) (int32 (km_Partition msg))
                (km_Offset msg) (ls_failMessages st)) as Hfw.
  destruct (forwardFailed _ _ _ _ _) as [ch entry]; simpl in Hfw.
  destruct Hfw as (Hentry & Hyes & Hno). simpl.
  match goal with
  | |- context [ls_commit topic partition (int64 (km_Offset msg - 1)) ?s] =>
      set (st0 := s)
  end.
  destruct (ls_commit_frame topic partition (int64 (km_Offset msg - 1)) st0)
    as (new1 & Hlog1 & Hnew1 & Hch1).
  set (st1 := ls_commit topic partition (int64 (km_Offset msg - 1)) st0) in *.
  destruct (ls_commit_frame topic partition (ls_offset st1) st1)
    as (new2 & Hlog2 & Hnew2 & Hch2).
  eexists _, ([entry] ++ new1 ++ new2). split; [done|].
  simpl in Hlog1, Hch1.
  rewrite Hlog2, Hlog1, Hch2, Hch1, <- !app_assoc.
  split; [done|].
  unfold forwardedOnce.
  rewrite !List.filter_app, Hnew1, Hnew2; simpl. rewrite Hentry.
  split; intros Hacc.
  - destruct (Hyes Hacc) as [? ->]. done.
  - destruct (Hno Hacc) as [-> ->]. done.
Qed.

(** The dead-letter hand-off of [ConsumeClaim], likewise. *)
Lemma claimBody_forwards_once (c : saramaConsumer PD Host)
    (msg : sarama_ConsumerMessage) (st : ClaimState Host)
    (process : Processor PD Host) (err : error) (host' : Host) :
  let conf := topicConf_lookup (topicConf c) (sm_Topic msg) in
  Name conf ≠ "" →
  messageCodec conf ≠ None →
  MessageProcessor conf = Some process →
  process (sc_procDependencies c) (newSaramaMessage msg (messageCodec conf))
    (cs_host st) = (Some err, host') →
  FailedProcessingTopic conf ≠ "" →
  let fm :=
    newFailedMessage (newSaramaMessage msg (messageCodec conf))
      (FailedProcessingTopic conf) err in
  ∃ st' new,
    claimBody c msg st = Continue st'
    ∧ cs_log st' = cs_log st ++ new
    ∧ forwardedOnce fm (sm_Topic msg) (int32 (sm_Partition msg))
        (sm_Offset msg) (cs_failMessages st) (cs_failMessages st') new.
Proof.
  intros conf Hname Hcodec Hproc Hfail Hdlt fm.
  unfold claimBody. fold conf.
  rewrite decide_False by (intros [?|?]; done).
  rewrite Hproc; simpl. rewrite Hfail. rewrite decide_True by done.
  fold fm.
  pose proof (forwardFailed_once fm (sm_Topic msg) (int32 (sm_Partition msg))
                (sm_Offset msg) (cs_failMessages st)) as Hfw.
  simpl. destruct (forwardFailed _ _ _ _ _) as [ch entry]; simpl in Hfw.
  destruct Hfw as (Hentry & Hyes & Hno).
  eexists _, [_; _; entry]. split; [done|]. simpl.
  rewrite <- !app_assoc. split; [done|]. unfold forwardedOnce; simpl.
  rewrite Hentry. split; intros Hacc.
  - destruct (Hyes Hacc) as [? ->]. done.
  - destruct (Hno Hacc) as [-> ->]. done.
Qed.

(** C6.  On a processing failure for a topic with a failed-processing
    topic, each backend makes one non-blocking send of the failed message
    to [c.failMessages] and goes on with its loop.  When the channel can
    take the message at once the receiving side gets it exactly once; when
    it cannot, the send is given up, the channel is untouched and the pass
    logs that the message was not sent to the fail handler.  In either case
    the pass ends in [Continue]. *)
Theorem failed_message_forwarded_once :
  (∀ (c : kafkagoConsumer PD Host) (conf : TopicConf) (topic : string)
     (partition : Z) (st : Loop) (msg : kafka_Message) (rd : Reader)
     (process : Processor PD Host) (err : error) (host' : Host),
     ReadMessage (ls_reader st) = (inl msg, rd) →
     MessageProcessor conf = Some process →
     process (procDependencies c) (newKafkaGoMessage msg (messageCodec conf))
       (ls_host st) = (Some err, host') →
     FailedProcessingTopic conf ≠ "" →
     ∃ st' new,
       loopBody c conf topic partition st = Continue st'
       ∧ ls_log st' = ls_log st ++ new
       ∧ forwardedOnce
           (newFailedMessage (newKafkaGoMessage msg (messageCodec conf))
              (FailedProcessingTopic conf) err)
           (km_Topic msg) (int32 (km_Partition msg)) (km_Offset msg)
           (ls_failMessages st) (ls_failMessages st') new)
  ∧ (∀ (c : saramaConsumer PD Host) (msg : sarama_ConsumerMessage)
       (st : ClaimState Host) (process : Processor PD Host) (err : error)
       (host' : Host),
       Name (topicConf_lookup (topicConf c) (sm_Topic msg)) ≠ "" →
       messageCodec (topicConf_lookup (topicConf c) (sm_Topic msg)) ≠ None →
       MessageProcessor (topicConf_lookup (topicConf c) (sm_Topic msg))
       = Some process →
       process (sc_procDependencies c)
         (newSaramaMessage msg
            (messageCodec (topicConf_lookup (topicConf c) (sm_Topic msg))))
         (cs_host st) = (Some err, host') →
       FailedProcessingTopic (topicConf_lookup (topicConf c) (sm_Topic msg))
       ≠ "" →
       ∃ st' new,
         claimBody c msg st = Continue st'
         ∧ cs_log st' = cs_log st ++ new
         ∧ forwardedOnce
             (newFailedMessage
                (newSaramaMessage msg
                   (messageCodec
                      (topicConf_lookup (topicConf c) (sm_Topic msg))))
                (FailedProcessingTopic
                   (topicConf_lookup (topicConf c) (sm_Topic msg))) err)
             (sm_Topic msg) (int32 (sm_Partition msg)) (sm_Offset msg)
             (cs_failMessages st) (cs_failMessages st') new).
Proof.
  split.
  - intros. by eapply loopBody_forwards_once.
  - intros. by eapply claimBody_forwards_once.
Qed.

(** ** Acknowledgement in the sarama backend *)

(** One pass of [ConsumeClaim] on a message, by the way the processor is
    reached. *)
Lemma claimBody_by_invocation (c : saramaConsumer PD Host)
    (msg : sarama_ConsumerMessage) (st : ClaimState Host) :
  match invocation c msg (cs_host st) with
  | NotConfigured =>
      ∃ st', claimBody c msg st = Continue st'
             ∧ cs_marked st' = cs_marked st ∧ cs_host st' = cs_host st
  | NilProcessor =>
      ∃ st', claimBody c msg st = Panic nilDereference st'
             ∧ cs_marked st' = cs_marked st
  | Invoked None h' =>
      ∃ st', claimBody c msg st = Continue st'
             ∧ cs_marked st' = cs_marked st ++ [msg] ∧ cs_host st' = h'
  | Invoked (Some _) h' =>
      ∃ st', claimBody c msg st = Continue st'
             ∧ cs_marked st' = cs_marked st ∧ cs_host st' = h'
  end.
Proof.
  unfold invocation, claimBody.
  destruct (decide _) as [Hconf|Hconf]; [by eexists|].
  destruct (MessageProcessor _) as [process|]; [|by eexists].
  simpl. destruct (process _ _ _) as [[err|] h']; [|by eexists].
  destruct (decide _); [|by eexists].
  destruct (forwardFailed _ _ _ _ _). by eexists.
Qed.

(** C7.  [ConsumeClaim] marks a claimed message if and only if the
    processor is invoked on it and returns no error: the messages marked
    by a run are the messages acknowledged in the sense above, in order.  A
    message whose processor fails is not marked, and the run goes on with
    the messages after it; it returns only once the session's context is
    done, and then with a nil error. *)
Theorem ConsumeClaim_marks_iff_processed (c : saramaConsumer PD Host)
    (events : list ClaimEvent) (st : ClaimState Host) :
  cs_marked (run_state (ConsumeClaim c events st))
  = cs_marked st ++ acknowledged c events (cs_host st)
  ∧ match ConsumeClaim c events st with
    | Result e _ => e = None ∧ ContextDone ∈ events
    | _ => True
    end.
Proof.
  revert st. induction events as [|ev rest IH]; intros st; simpl.
  { by rewrite app_nil_r. }
  destruct ev as [msg| |]; simpl; try (rewrite app_nil_r; split; [done|]).
  - pose proof (claimBody_by_invocation c msg st) as Hstep.
    destruct (invocation c msg (cs_host st)) as [| |[err|] h'];
      destruct Hstep as (st' & -> & Hrest).
    + destruct Hrest as [Hm Hh]. destruct (IH st') as [IHm IHr].
      rewrite IHm, Hm, Hh. split; [done|].
      destruct (ConsumeClaim c rest st'); [done| |done].
      split; [apply IHr|]. apply elem_of_cons. right. apply IHr.
    + simpl. by rewrite Hrest, app_nil_r.
    + destruct Hrest as [Hm Hh]. destruct (IH st') as [IHm IHr].
      rewrite IHm, Hm, Hh. split; [done|].
      destruct (ConsumeClaim c rest st'); [done| |done].
      split; [apply IHr|]. apply elem_of_cons. right. apply IHr.
    + destruct Hrest as [Hm Hh]. destruct (IH st') as [IHm IHr].
      rewrite IHm, Hm, Hh, <- app_assoc. split; [done|].
      destruct (ConsumeClaim c rest st'); [done| |done].
      split; [apply IHr|]. apply elem_of_cons. right. apply IHr.
  - done.
  - split; [done|]. apply elem_of_cons. by left.
Qed.

(** ** Unconfigured topics *)

(** [ConsumeClaim] checks the configuration of the topic of each message:
    without a name or without a codec the message is reported with
    [errTopicConfMissing] and skipped, the processor is not called and the
    message is not marked. *)
Lemma claimBody_unconfigured_topic_skipped (c : saramaConsumer PD Host)
    (msg : sarama_ConsumerMessage) (st : ClaimState Host) :
  let conf := topicConf_lookup (topicConf c) (sm_Topic msg) in
  Name conf = "" ∨ messageCodec conf = None →
  claimBody c msg st
  = Continue
      (mkClaimState (cs_marked st) (cs_failMessages st) (cs_host st)
         (cs_log st ++ [LogError LogCatKafkaConsume errTopicConfMissing])
         (Some errTopicConfMissing)).
Proof. intros conf Hconf. unfold claimBody. fold conf. by rewrite decide_True. Qed.

(** C8 (as the code behaves).  The read loop of the kafka-go backend does
    not look at the configuration it fetched for its topic.  For a topic
    whose entry has no name or no codec, which [ConsumeClaim] rejects with
    [errTopicConfMissing], a record that is read is handed to the entry's
    processor and its offset is committed as for any other record; for a
    topic with no entry at all the processor of the zero [TopicConfig] is
    nil and the call panics, nothing having been logged. *)
Theorem loopBody_unconfigured_topic_processed (c : kafkagoConsumer PD Host)
    (topic : string) (partition : Z) (st : Loop) (msg : kafka_Message)
    (rd : Reader) :
  let conf := topicConf_lookup (topicConfig c) topic in
  ReadMessage (ls_reader st) = (inl msg, rd) →
  Name conf = "" ∨ messageCodec conf = None →
  match MessageProcessor conf with
  | Some process =>
      ∃ st',
        loopBody c conf topic partition st = Continue st'
        ∧ ls_host st'
          = (process (procDependencies c)
               (newKafkaGoMessage msg (messageCodec conf)) (ls_host st)).2
        ∧ last (gen_commit_calls (ls_gen st'))
          = Some (offset_map topic partition (km_Offset msg))
  | None =>
      ∃ st',
        loopBody c conf topic partition st = Panic nilDereference st'
        ∧ ls_log st' = ls_log st
        ∧ gen_commit_calls (ls_gen st') = gen_commit_calls (ls_gen st)
  end.
Proof.
  intros conf Hread _.
  unfold loopBody. rewrite Hread; simpl.
  destruct (MessageProcessor conf) as [process|]; [|by eexists].
  destruct (process _ _ _) as [e host] eqn:Hp; simpl.
  eexists; split; [done|].
  set (st1 := match e with Some _ => _ | None => _ end).
  assert (ls_host st1 = host ∧ ls_offset st1 = km_Offset msg) as [Hh Ho].
  { subst st1. destruct e as [err|]; [|done].
    unfold onProcessingFailure, ls_commit; simpl.
    set (st0 := if decide _ then _ else _).
    assert (ls_host st0 = host ∧ ls_offset st0 = km_Offset msg) as [Hh0 Ho0].
    { subst st0. destruct (decide _); [|done].
      by destruct (forwardFailed _ _ _ _ _). }
    destruct (SetOffset _ _) as [[e0|] rd0]; simpl;
      destruct (commitOffset _ _ _ _ _); done. }
  unfold ls_commit.
  pose proof (commitOffset_calls topic partition (ls_offset st1) (ls_gen st1)
                (ls_log st1)) as Hcalls.
  destruct (commitOffset _ _ _ _ _) as [g lg]; simpl in *.
  split; [done|]. rewrite Hcalls, Ho.
  destruct (gen_commit_result _ _); [apply last_app_two|apply last_snoc].
Qed.

(** ** The producer *)

(** C2 (as the code behaves).  For a topic without a codec
    [getSaramaEncoder] logs [errCodecNil] and returns with both of its
    results nil, so [produceMessage] does not stop: it builds a message
    with a nil value and passes it to the broker, through [SendMessage] on
    a sync producer (its result being the broker's answer) and onto the
    input channel on an async producer. *)
Theorem produceMessage_nil_codec_is_sent (formatFloat : Z → Z → string)
    (p : saramaProducer PD Host) (topic key : string) (msg : GoValue)
    (w : ProducerWorld) :
  let conf := topicConf_lookup (sp_topicConf p) topic in
  let w1 := pw_logged (LogError LogCatKafkaProduce (errCodecNil (Name conf))) w in
  let m := mkProducerMessage topic (StringEncoder key) None in
  messageCodec conf = None →
  getSaramaEncoder formatFloat conf msg w = (None, None, w1)
  ∧ match producer p with
    | SyncProducer =>
        (produceMessage formatFloat p topic key msg w).1
        = pw_ack w (length (pw_sent w))
        ∧ pw_sent (produceMessage formatFloat p topic key msg w).2
          = pw_sent w ++ [m]
    | AsyncProducer =>
        produceMessage formatFloat p topic key msg w = (None, enqueue m w1)
    | NilProducer =>
        (produceMessage formatFloat p topic key msg w).1
        = Some errInvalidProducer
    end.
Proof.
  intros conf w1 m Hnil.
  assert (getSaramaEncoder formatFloat conf msg w = (None, None, w1)) as Henc.
  { unfold getSaramaEncoder. by rewrite Hnil. }
  split; [done|].
  unfold produceMessage. fold conf. rewrite Henc.
  destruct (producer p); simpl; try done.
  by destruct (pw_ack w (length (pw_sent w))).
Qed.

(** C4 (amended).  For a topic with a codec and a payload of type int32,
    int64, float32 or float64, [getSaramaEncoder] returns a string encoder
    holding [fmt.Sprint] of the payload, for the integer types its decimal
    representation, with a nil error; the codec is not asked to encode
    anything and nothing is logged.  [int64(7)] gives the string "7". *)
Theorem getSaramaEncoder_numeric (formatFloat : Z → Z → string)
    (conf : TopicConf) (codec : Codec) (msg : GoValue) (text : string)
    (w : ProducerWorld) :
  messageCodec conf = Some codec →
  numericText formatFloat msg = Some text →
  getSaramaEncoder formatFloat conf msg w = (Some (StringEncoder text), None, w)
  ∧ numericText formatFloat (VInt64 7) = Some "7".
Proof.
  intros Hcodec Htext. split; [|done].
  unfold getSaramaEncoder. rewrite Hcodec.
  destruct msg; simpl in *; by simplify_eq.
Qed.

(** C5 (amended).  For a topic with a codec and a payload that is neither
    text, raw bytes, one of the four numeric types nor a struct,
    [produceMessage] returns [errMessageType], "unsupported message type",
    whatever the producer is, and makes no broker call: nothing is passed
    to [SendMessage] and nothing is put on the input channel. *)
Theorem produceMessage_unsupported_type (formatFloat : Z → Z → string)
    (p : saramaProducer PD Host) (topic key : string) (codec : Codec)
    (msg : GoValue) (w : ProducerWorld) :
  messageCodec (topicConf_lookup (sp_topicConf p) topic) = Some codec →
  unsupportedShape msg →
  (produceMessage formatFloat p topic key msg w).1 = Some errMessageType
  ∧ error_text errMessageType = Some "unsupported message type"
  ∧ pw_sent (produceMessage formatFloat p topic key msg w).2 = pw_sent w
  ∧ pw_input (produceMessage formatFloat p topic key msg w).2 = pw_input w
  ∧ pw_encoded (produceMessage formatFloat p topic key msg w).2 = pw_encoded w.
Proof.
  intros Hcodec Hshape.
  unfold produceMessage, getSaramaEncoder. rewrite Hcodec.
  destruct msg as [| | | | | | |k]; try done. simpl in Hshape.
  simpl. by rewrite decide_False.
Qed.

(** C10.  A sync producer that [newSaramaProducer] builds without error
    holds sarama's sync producer, and the constructor has started
    [handleAsyncResponses] on it all the same.  The goroutine asserts the
    producer to [sarama.AsyncProducer] without a check, the assertion does
    not hold for a sync producer, and so the goroutine panics, whatever
    responses might arrive and before it logs anything. *)
Theorem sync_producer_response_loop_panics (dial : option error)
    (conf : gmap string TopicConf) (lg : Log) (p : saramaProducer PD Host)
    (gs : list Goroutine) (lg' : Log) :
  newSaramaProducer ProducerTypeSync dial conf lg = (p, None, gs, lg') →
  producer p = SyncProducer
  ∧ gs = [go_handleAsyncResponses (producer p)]
  ∧ assertAsyncProducer (producer p) = None
  ∧ ∀ g responses lg0,
      g ∈ gs → runGoroutine g responses lg0 = Panicked assertionFailed lg0.
Proof.
  unfold newSaramaProducer. destruct dial as [e|]; [done|].
  intros [= <- <- <-]; simpl. repeat split.
  intros g responses lg0 ->%list_elem_of_singleton.
  by destruct responses.
Qed.

(** ** The generation loop *)

Lemma sched_init_inv (c : kafkagoConsumer PD Host) : sched_inv c sched_init.
Proof. done. Qed.

Lemma startConsume_step_inv (c : kafkagoConsumer PD Host) (m : Move) (s s' : Sched) :
  sched_inv c s → startConsume_step c m s = Some s' → sched_inv c s'.
Proof.
  destruct s as [pc gen wg topics loops started nexts lg].
  unfold sched_inv, startConsume_step; simpl. intros [Hwg Hpc] Hstep.
  destruct m as [|[g|e]| | | |i|i].
  - (* the call of Next *)
    destruct pc; try done. by injection Hstep as <-.
  - (* Next returns a generation *)
    destruct pc; try done. injection Hstep as <-; simpl in *.
    subst topics; simpl in *. split; [lia|by exists g].
  - (* Next returns an error *)
    destruct pc; try done. by injection Hstep as <-.
  - (* the sleep ends *)
    destruct pc; try done. by injection Hstep as <-.
  - (* one go statement, or the end of the for *)
    destruct pc as [| | |[|t rest]|]; try done;
      injection Hstep as <-; simpl in *.
    + by rewrite Nat.add_0_r in Hwg |- *.
    + rewrite length_app, <- (assoc_L (++)); simpl. split; [lia|done].
  - (* Wait returns *)
    destruct pc; try done.
    destruct (decide (wg = 0)) as [Hzero|]; [|done].
    injection Hstep as <-; simpl in *.
    split; [done|]. apply nil_length_inv. lia.
  - (* a consumeTopic goroutine runs *)
    destruct (topics !! i) as [t|] eqn:Ht; [|done].
    destruct gen as [g|]; [|done]. injection Hstep as <-; simpl.
    assert (length (delete i topics) = pred (length topics)) as Hlen.
    { rewrite length_delete; [lia|by eexists]. }
    assert (0 < length topics)%nat as Hpos.
    { apply lookup_lt_Some in Ht. lia. }
    split; [lia|].
    destruct pc; try (subst topics; done);
      destruct Hpc as (g' & [= <-] & Hperm); exists g; (split; [done|]);
      rewrite <- Hperm, <- (assoc_L (++)); apply Permutation_app_head;
      rewrite (delete_Permutation topics i t Ht) at 2;
      by rewrite !fmap_app, !concat_app, fmap_cons, concat_cons,
           (assoc_L (++)).
  - (* a partition loop returns *)
    destruct (loops !! i); [|done]. by injection Hstep as <-.
Qed.

Lemma reachable_inv (c : kafkagoConsumer PD Host) (s : Sched) :
  reachable c s → sched_inv c s.
Proof.
  intros [ms Hrun]. revert Hrun.
  generalize (sched_init_inv c). generalize sched_init.
  induction ms as [|m ms IH]; intros s0 Hinv; simpl.
  - by intros [= <-].
  - destruct (startConsume_step c m s0) as [s1|] eqn:Hstep; [|done].
    apply IH. by eapply startConsume_step_inv.
Qed.

Lemma startConsume_run_app (c : kafkagoConsumer PD Host)
    (ms1 ms2 : list Move) (s : Sched) :
  startConsume_run c (ms1 ++ ms2) s
  = startConsume_run c ms1 s ≫= startConsume_run c ms2.
Proof.
  revert s. induction ms1 as [|m ms1 IH]; intros s; simpl; [done|].
  destruct (startConsume_step c m s); [apply IH|done].
Qed.

(** The [for] of [startConsume] run to its end: every remaining name gets
    its [go] statement and the coordinator arrives in [Wait]. *)
Lemma startConsume_run_go (c : kafkagoConsumer PD Host) (rest : list string)
    (gen : option Generation) (wg : Z) (topics : list string)
    (loops started : list LoopTask) (nexts : nat) (lg : Log) :
  startConsume_run c (replicate (length rest) CoordGo ++ [CoordGo])
    (mkSched (AtGo rest) gen wg topics loops started nexts lg)
  = Some (mkSched AtWait gen wg (topics ++ rest) loops started nexts lg).
Proof.
  revert topics. induction rest as [|t rest IH]; intros topics; simpl.
  - by rewrite app_nil_r.
  - rewrite IH. by rewrite <- app_assoc.
Qed.

(** Every pending [consumeTopic] run to its return, no loop returning
    meanwhile: the counter goes down by their number and the loops of their
    topics are running. *)
Lemma startConsume_run_topics (c : kafkagoConsumer PD Host) (g : Generation)
    (topics : list string) (pc : CoordPc) (wg : Z)
    (loops started : list LoopTask) (nexts : nat) (lg : Log) :
  startConsume_run c (replicate (length topics) (TopicRuns 0))
    (mkSched pc (Some g) wg topics loops started nexts lg)
  = Some (mkSched pc (Some g) (wg - Z.of_nat (length topics)) []
            (loops ++ concat (consumeTopic g <$> topics))
            (started ++ concat (consumeTopic g <$> topics)) nexts lg).
Proof.
  revert wg loops started.
  induction topics as [|t topics IH]; intros wg loops started.
  - simpl. by rewrite Z.sub_0_r, !app_nil_r.
  - cbn [length replicate startConsume_run].
    assert (startConsume_step c (TopicRuns 0)
              (mkSched pc (Some g) wg (t :: topics) loops started nexts lg)
            = Some (mkSched pc (Some g) (wg - 1) topics
                      (loops ++ consumeTopic g t)
                      (started ++ consumeTopic g t) nexts lg)) as ->.
    { unfold startConsume_step; simpl. by destruct pc. }
    rewrite IH. simpl. rewrite <- !app_assoc. do 2 f_equal. lia.
Qed.

(** A whole generation in which no partition loop returns: the coordinator
    gets the generation, starts and awaits its [consumeTopic] goroutines,
    leaves [Wait] and calls [c.group.Next] again, with every loop of the
    generation running. *)
Lemma startConsume_run_generation (c : kafkagoConsumer PD Host)
    (g : Generation) :
  startConsume_run c
    ([CoordCallsNext; NextReturns (inl g)]
     ++ (replicate (length (topicNames c)) CoordGo ++ [CoordGo])
     ++ replicate (length (topicNames c)) (TopicRuns 0)
     ++ [CoordWaitReturns; CoordCallsNext])
    sched_init
  = Some (mkSched InNext (Some g) 0 []
            (concat (consumeTopic g <$> topicNames c))
            (concat (consumeTopic g <$> topicNames c)) 2%nat []).
Proof.
  simpl.
  rewrite startConsume_run_app, startConsume_run_go; simpl.
  rewrite startConsume_run_app, startConsume_run_topics; simpl.
  replace (0 + Z.of_nat (length (topicNames c))
           - Z.of_nat (length (topicNames c))) with 0 by lia.
  done.
Qed.

(** C9 (amended).  In any state the goroutines of [startConsume] can
    reach, [Wait] does not return while a [consumeTopic] goroutine of the
    generation is still running; and when it returns, which brings the
    coordinator to its next call of [c.group.Next], every [consumeTopic]
    goroutine has returned and exactly one partition loop has been started
    for each assignment of each subscribed topic of the generation.
    [startConsume] does not itself wait for those loops to return: once
    the [consumeTopic] goroutines have returned, [Wait] does return and the
    coordinator does call [c.group.Next], whatever loops are running and
    with these still running; and for every generation [g] the goroutines
    can reach the second call of [c.group.Next] with every partition loop
    of [g] running. *)
Theorem startConsume_waits_for_consumeTopic (c : kafkagoConsumer PD Host)
    (s : Sched) (g : Generation) :
  reachable c s →
  (sc_topics s ≠ [] → startConsume_step c CoordWaitReturns s = None)
  ∧ (∀ s', startConsume_step c CoordWaitReturns s = Some s' →
           sc_pc s' = AtNext
           ∧ sc_topics s' = []
           ∧ sc_started s' ≡ₚ generationTasks c s'
           ∧ sc_loops s' = sc_loops s)
  ∧ (sc_pc s = AtWait → sc_topics s = [] →
     ∃ s' s'',
       startConsume_step c CoordWaitReturns s = Some s'
       ∧ startConsume_step c CoordCallsNext s' = Some s''
       ∧ sc_pc s'' = InNext
       ∧ sc_nexts s'' = S (sc_nexts s)
       ∧ sc_loops s'' = sc_loops s)
  ∧ ∃ r,
      reachable c r
      ∧ sc_pc r = InNext
      ∧ sc_nexts r = 2%nat
      ∧ sc_gen r = Some g
      ∧ sc_loops r = concat (consumeTopic g <$> topicNames c).
Proof.
  intros Hreach. pose proof (reachable_inv c s Hreach) as [Hwg Hpc].
  split; [|split; [|split]].
  - unfold startConsume_step.
    intros Hrun. destruct (sc_pc s); try done.
    rewrite decide_False; [done|]. simpl in Hwg.
    destruct (sc_topics s); [done|]. simpl in Hwg. lia.
  - unfold startConsume_step, generationTasks.
    intros s'. destruct (sc_pc s); try done.
    destruct (decide (sc_wg s = 0)) as [Hzero|]; [|done].
    intros [= <-]; simpl. simpl in Hwg.
    assert (sc_topics s = []) as Hnone by (apply nil_length_inv; lia).
    destruct Hpc as (g' & -> & Hperm).
    rewrite Hnone in Hperm; simpl in Hperm. rewrite app_nil_r in Hperm.
    done.
  - intros Hwait Hnone. unfold startConsume_step.
    rewrite Hwait, Hnone in Hwg. simpl in Hwg.
    rewrite Hwait. rewrite decide_True by done. simpl.
    by eexists _, _.
  - eexists. split; [eexists; apply (startConsume_run_generation c g)|].
    done.
Qed.

End Properties.

(** * Further properties *)

(** ** Machine integers *)

Lemma int64_in_range (z : Z) : - 2 ^ 63 ≤ z < 2 ^ 63 → int64 z = z.
Proof.
  intros Hz. unfold int64, wrap.
  change (2 ^ (64 - 1)) with (2 ^ 63). rewrite Z.mod_small; lia.
Qed.

(** ** Commits and the rest of a loop *)

Lemma commitOffset_gen_any_log (topic : string) (partition offset : Z)
    (g : Generation) (lg lg' : Log) :
  (commitOffset topic partition offset g lg).1
  = (commitOffset topic partition offset g lg').1.
Proof.
  unfold commitOffset, CommitOffsets; simpl.
  destruct (gen_commit_result g (length (gen_commit_calls g))); [|done].
  by destruct (gen_commit_result g _).
Qed.

Lemma commitOffset_keeps_results (topic : string) (partition offset : Z)
    (g : Generation) (lg : Log) :
  gen_commit_result (commitOffset topic partition offset g lg).1
  = gen_commit_result g
  ∧ Assignments (commitOffset topic partition offset g lg).1 = Assignments g.
Proof.
  unfold commitOffset, CommitOffsets; simpl.
  destruct (gen_commit_result g (length (gen_commit_calls g))); [|done].
  by destruct (gen_commit_result g _).
Qed.

Lemma merge_offsets_other (topic : string) (partition offset : Z)
    (old : gmap string (gmap Z Z)) (topic' : string) (partition' : Z) :
  (topic', partition') ≠ (topic, partition) →
  merge_offsets (offset_map topic partition offset) old !! topic'
    ≫= (.!! partition')
  = old !! topic' ≫= (.!! partition').
Proof.
  intros Hne. unfold merge_offsets, offset_map.
  rewrite lookup_union_with.
  destruct (decide (topic' = topic)) as [->|Ht].
  - rewrite lookup_singleton_eq.
    assert (partition' ≠ partition) as Hp by congruence.
    destruct (old !! topic) as [ps|]; simpl.
    + by rewrite lookup_union, lookup_singleton_ne, (left_id_L None _).
    + by rewrite lookup_singleton_ne.
  - rewrite lookup_singleton_ne by done.
    by destruct (old !! topic').
Qed.

Lemma commitOffset_other (topic : string) (partition offset : Z)
    (g : Generation) (lg : Log) (topic' : string) (partition' : Z) :
  (topic', partition') ≠ (topic, partition) →
  committed_offset (commitOffset topic partition offset g lg).1
    topic' partition'
  = committed_offset g topic' partition'.
Proof.
  intros Hne. unfold committed_offset.
  rewrite commitOffset_committed.
  destruct (gen_commit_result g _) as [e1|];
    [destruct (gen_commit_result g _) as [e2|]|];
    by rewrite ?merge_offsets_other.
Qed.

Section MoreProperties.

Context {PD Host : Type}.

#[local] Abbreviation TopicConf' := (TopicConfig PD Host).
#[local] Abbreviation Loop' := (LoopState Host).

Lemma ls_commit_core (topic : string) (partition offset : Z) (st : Loop') :
  ls_core (ls_commit topic partition offset st) = ls_core st.
Proof. unfold ls_commit. by destruct (commitOffset _ _ _ _ _). Qed.

Lemma ls_commit_gen (topic : string) (partition offset : Z) (st : Loop') :
  ls_gen (ls_commit topic partition offset st)
  = (commitOffset topic partition offset (ls_gen st) []).1.
Proof.
  unfold ls_commit.
  rewrite (commitOffset_gen_any_log _ _ _ _ [] (ls_log st)).
  by destruct (commitOffset _ _ _ _ _).
Qed.

(** A pass on which the processor succeeds. *)
Lemma loopBody_success_pass (c : kafkagoConsumer PD Host) (conf : TopicConf')
    (topic : string) (partition : Z) (st : Loop') (msg : kafka_Message)
    (rd : Reader) (process : Processor PD Host) (host' : Host) :
  ReadMessage (ls_reader st) = (inl msg, rd) →
  MessageProcessor conf = Some process →
  process (procDependencies c) (newKafkaGoMessage msg (messageCodec conf))
    (ls_host st) = (None, host') →
  loopBody c conf topic partition st
  = Continue
      (ls_commit topic partition (km_Offset msg)
         (mkLoopState rd (km_Offset msg) (ls_gen st) (ls_failMessages st)
            host' (ls_log st))).
Proof.
  intros Hread Hproc Hok. unfold loopBody.
  rewrite Hread, Hproc; simpl. by rewrite Hok.
Qed.

(** A pass on which the processor fails. *)
Lemma loopBody_failure_pass (c : kafkagoConsumer PD Host) (conf : TopicConf')
    (topic : string) (partition : Z) (st : Loop') (msg : kafka_Message)
    (rd : Reader) (process : Processor PD Host) (err : error) (host' : Host) :
  ReadMessage (ls_reader st) = (inl msg, rd) →
  MessageProcessor conf = Some process →
  process (procDependencies c) (newKafkaGoMessage msg (messageCodec conf))
    (ls_host st) = (Some err, host') →
  ∃ st',
    loopBody c conf topic partition st = Continue st'
    ∧ ls_reader st' = mkReader (rd_fetch (ls_reader st)) (km_Offset msg) false
    ∧ ls_offset st' = km_Offset msg
    ∧ ls_host st' = host'
    ∧ ls_gen st'
      = (commitOffset topic partition (km_Offset msg)
           (commitOffset topic partition (int64 (km_Offset msg - 1))
              (ls_gen st) []).1 []).1
    ∧ (FailedProcessingTopic conf = "" →
       ls_failMessages st' = ls_failMessages st).
Proof.
  intros Hread Hproc Hfail.
  destruct (ReadMessage_record _ _ _ Hread) as (Hopen & _ & ->).
  unfold loopBody. rewrite Hread, Hproc; simpl. rewrite Hfail.
  eexists; split; [done|].
  unfold onProcessingFailure; simpl.
  set (st0 := if decide (FailedProcessingTopic conf ≠ "") then _ else _).
  assert (ls_reader st0 = mkReader (rd_fetch (ls_reader st))
                            (int64 (km_Offset msg + 1)) false
          ∧ ls_offset st0 = km_Offset msg ∧ ls_gen st0 = ls_gen st
          ∧ ls_host st0 = host'
          ∧ (FailedProcessingTopic conf = "" →
             ls_failMessages st0 = ls_failMessages st))
    as (Hrd & Hoff & Hgen & Hhost & Hch).
  { subst st0. destruct (decide _) as [Hne|]; [|done].
    by destruct (forwardFailed _ _ _ _ _). }
  unfold SetOffset. rewrite Hrd; simpl.
  match goal with
  | |- context [ls_commit topic partition (int64 ?o) ?s] =>
      set (st1 := s); set (st2 := ls_commit topic partition (int64 o) st1)
  end.
  pose proof (ls_commit_core topic partition (ls_offset st2) st2) as Hc2.
  pose proof (ls_commit_core topic partition (int64 (ls_offset st0 - 1)) st1)
    as Hc1.
  fold st2 in Hc1. unfold ls_core in Hc1, Hc2.
  injection Hc2 as Hr2 Ho2 Hf2 Hh2. injection Hc1 as Hr1 Ho1 Hf1 Hh1.
  repeat split.
  - by rewrite Hr2, Hr1, Hoff.
  - by rewrite Ho2, Ho1.
  - by rewrite Hh2, Hh1.
  - rewrite ls_commit_gen. unfold st2 at 2. rewrite ls_commit_gen; simpl.
    by rewrite Ho1, Hoff, Hgen.
  - intros Hnone. rewrite Hf2, Hf1. by apply Hch.
Qed.

(** X1.  A pass on which the processor succeeds commits the offset of the
    record it read, through one [commitOffset], and nothing else: the
    reader stands behind the record, nothing is put on the fail channel,
    and when the coordinator accepts the commit nothing is logged. *)
Theorem loopBody_success_commits_record (c : kafkagoConsumer PD Host)
    (conf : TopicConf') (topic : string) (partition : Z) (st : Loop')
    (msg : kafka_Message) (rd : Reader) (process : Processor PD Host)
    (host' : Host) :
  ReadMessage (ls_reader st) = (inl msg, rd) →
  MessageProcessor conf = Some process →
  process (procDependencies c) (newKafkaGoMessage msg (messageCodec conf))
    (ls_host st) = (None, host') →
  ∃ st',
    loopBody c conf topic partition st = Continue st'
    ∧ ls_reader st' = rd
    ∧ rd_offset rd = int64 (km_Offset msg + 1)
    ∧ ls_host st' = host'
    ∧ ls_failMessages st' = ls_failMessages st
    ∧ gen_commit_calls (ls_gen st')
      = gen_commit_calls (ls_gen st)
        ++ match gen_commit_result (ls_gen st)
                   (length (gen_commit_calls (ls_gen st))) with
           | None => [offset_map topic partition (km_Offset msg)]
           | Some _ =>
               [offset_map topic partition (km_Offset msg);
                offset_map topic partition (km_Offset msg)]
           end
    ∧ (gen_commit_result (ls_gen st) (length (gen_commit_calls (ls_gen st)))
       = None →
       committed_offset (ls_gen st') topic partition = Some (km_Offset msg)
       ∧ ls_log st' = ls_log st).
Proof.
  intros Hread Hproc Hok.
  rewrite (loopBody_success_pass _ _ _ _ _ _ _ _ _ Hread Hproc Hok).
  destruct (ReadMessage_record _ _ _ Hread) as (_ & _ & ->).
  eexists; split; [done|].
  match goal with |- context [ls_commit ?t ?p ?o ?s] => set (st1 := s) end.
  pose proof (ls_commit_core topic partition (km_Offset msg) st1) as Hcore.
  injection Hcore as Hr Ho Hf Hh.
  pose proof (commitOffset_calls topic partition (km_Offset msg) (ls_gen st)
                (ls_log st)) as Hcalls.
  repeat split; try done.
  - rewrite ls_commit_gen; simpl.
    by rewrite (commitOffset_gen_any_log _ _ _ _ [] (ls_log st)).
  - rewrite ls_commit_gen; simpl. unfold committed_offset.
    rewrite commitOffset_accepted by done. apply committed_after_merge.
  - unfold ls_commit; simpl. by rewrite commitOffset_accepted.
Qed.

(** X2.  A read error ends the loop at once: the error is logged, and
    nothing is processed, committed or put on the fail channel. *)
Theorem readLoop_read_error_returns (c : kafkagoConsumer PD Host)
    (conf : TopicConf') (topic : string) (partition : Z) (st : Loop')
    (e : error) (rd : Reader) (n : nat) :
  ReadMessage (ls_reader st) = (inr e, rd) →
  ∃ st',
    readLoop (S n) c conf topic partition st = Returned st'
    ∧ ls_log st' = ls_log st ++ [LogError LogCatKafkaConsume (errMsgRead e)]
    ∧ ls_host st' = ls_host st
    ∧ ls_gen st' = ls_gen st
    ∧ ls_failMessages st' = ls_failMessages st
    ∧ ls_reader st' = ls_reader st.
Proof.
  intros Hread. simpl. unfold loopBody. rewrite Hread.
  eexists; split; [done|]. simpl. repeat split.
  unfold ReadMessage in Hread.
  destruct (rd_closed (ls_reader st)); [by injection Hread|].
  destruct (rd_fetch _ _); [done|by injection Hread].
Qed.

(** The generation a pass leaves is the one it found, after some commits
    for the partition of the loop. *)
Lemma loopBody_gen_closed (P : Generation → Prop) (c : kafkagoConsumer PD Host)
    (conf : TopicConf') (topic : string) (partition : Z) (st : Loop') :
  P (ls_gen st) →
  (∀ g o, P g → P (commitOffset topic partition o g []).1) →
  P (ls_gen (outcome_state (loopBody c conf topic partition st))).
Proof.
  intros Hst Hcommit.
  destruct (ReadMessage (ls_reader st)) as [[msg|e] rd] eqn:Hread.
  - destruct (MessageProcessor conf) as [process|] eqn:Hproc.
    + destruct (process (procDependencies c)
                  (newKafkaGoMessage msg (messageCodec conf)) (ls_host st))
        as [[err|] host'] eqn:Hres.
      * destruct (loopBody_failure_pass c conf topic partition st msg rd
                    process err host' Hread Hproc Hres)
          as (st' & -> & _ & _ & _ & Hgen & _).
        simpl. rewrite Hgen. by apply Hcommit, Hcommit.
      * rewrite (loopBody_success_pass _ _ _ _ _ _ _ _ _ Hread Hproc Hres).
        simpl. rewrite ls_commit_gen. by apply Hcommit.
    + unfold loopBody. by rewrite Hread, Hproc.
  - unfold loopBody. by rewrite Hread.
Qed.

Lemma readLoop_gen_closed (P : Generation → Prop) (n : nat)
    (c : kafkagoConsumer PD Host) (conf : TopicConf') (topic : string)
    (partition : Z) (st : Loop') :
  P (ls_gen st) →
  (∀ g o, P g → P (commitOffset topic partition o g []).1) →
  P (ls_gen (loop_state (readLoop n c conf topic partition st))).
Proof.
  intros Hst Hcommit. revert st Hst.
  induction n as [|n IH]; intros st Hst; simpl; [done|].
  pose proof (loopBody_gen_closed P c conf topic partition st Hst Hcommit)
    as Hbody.
  destruct (loopBody c conf topic partition st); simpl in *; auto.
Qed.

(** X3.  A partition loop, however long it runs, changes the committed
    offset of no partition but its own, and leaves the assignments and the
    coordinator as they are. *)
Theorem readLoop_commits_own_partition_only (n : nat)
    (c : kafkagoConsumer PD Host) (conf : TopicConf') (topic : string)
    (partition : Z) (st : Loop') (topic' : string) (partition' : Z) :
  (topic', partition') ≠ (topic, partition) →
  committed_offset
    (ls_gen (loop_state (readLoop n c conf topic partition st)))
    topic' partition'
  = committed_offset (ls_gen st) topic' partition'
  ∧ Assignments (ls_gen (loop_state (readLoop n c conf topic partition st)))
    = Assignments (ls_gen st).
Proof.
  intros Hne.
  apply (readLoop_gen_closed
           (λ g, committed_offset g topic' partition'
                 = committed_offset (ls_gen st) topic' partition'
                 ∧ Assignments g = Assignments (ls_gen st))); [done|].
  intros g o [Hc Ha]. rewrite commitOffset_other by done.
  by rewrite (proj2 (commitOffset_keeps_results _ _ _ _ _)).
Qed.

Lemma ls_core_eq_with_gen (a b : Loop') :
  ls_core a = ls_core b → a = ls_with_gen (ls_gen a) (ls_log a) b.
Proof. destruct a, b. unfold ls_core, ls_with_gen; simpl. by intros [= -> -> -> ->]. Qed.

Lemma loopBody_any_gen (c : kafkagoConsumer PD Host) (conf : TopicConf')
    (topic : string) (partition : Z) (st : Loop') (g : Generation) (lg : Log) :
  outcome_map ls_core (loopBody c conf topic partition (ls_with_gen g lg st))
  = outcome_map ls_core (loopBody c conf topic partition st).
Proof.
  unfold loopBody, ls_with_gen; simpl.
  destruct (ReadMessage (ls_reader st)) as [[msg|e] rd]; simpl; [|done].
  destruct (MessageProcessor conf) as [process|]; [|done].
  destruct (process _ _ _) as [[err|] host]; simpl.
  - f_equal. rewrite !ls_commit_core.
    unfold onProcessingFailure; simpl.
    destruct (decide _); [destruct (forwardFailed _ _ _ _ _)|]; simpl;
      destruct (SetOffset _ _) as [[e0|] rd0]; simpl;
      by rewrite !ls_commit_core.
  - f_equal. by rewrite !ls_commit_core.
Qed.

(** X4.  What the coordinator answers to commits has no effect on the
    processing: run for any number of passes against any generation and
    with any log, a loop reads and processes the same records, leaves the
    reader at the same position and the host in the same state, puts the
    same messages on the fail channel and ends the same way.  A refused
    commit is not made up for and the record is not processed again. *)
Theorem readLoop_independent_of_commits (n : nat)
    (c : kafkagoConsumer PD Host) (conf : TopicConf') (topic : string)
    (partition : Z) (st : Loop') (g : Generation) (lg : Log) :
  run_map ls_core (readLoop n c conf topic partition (ls_with_gen g lg st))
  = run_map ls_core (readLoop n c conf topic partition st).
Proof.
  revert st g lg. induction n as [|n IH]; intros st g lg; simpl; [done|].
  pose proof (loopBody_any_gen c conf topic partition st g lg) as Hbody.
  destruct (loopBody c conf topic partition (ls_with_gen g lg st)) as [a|a|w a],
    (loopBody c conf topic partition st) as [b|b|w' b];
    simpl in Hbody; try done.
  - assert (ls_core a = ls_core b) as Hcore by congruence.
    rewrite (ls_core_eq_with_gen a b Hcore). apply IH.
  - simpl. f_equal. congruence.
  - simpl. f_equal; congruence.
Qed.

Lemma commitOffset_accepting (topic : string) (partition offset : Z)
    (g : Generation) (lg : Log) :
  accepts_commits g →
  accepts_commits (commitOffset topic partition offset g lg).1
  ∧ gen_commit_calls (commitOffset topic partition offset g lg).1
    = gen_commit_calls g ++ [offset_map topic partition offset]
  ∧ committed_offset (commitOffset topic partition offset g lg).1
      topic partition = Some offset
  ∧ (commitOffset topic partition offset g lg).2 = lg.
Proof.
  intros Hacc. rewrite commitOffset_accepted by apply Hacc. simpl.
  repeat split; try done.
  unfold committed_offset; simpl. apply committed_after_merge.
Qed.

Lemma readLoop_successes_aux (n : nat) (c : kafkagoConsumer PD Host)
    (conf : TopicConf') (topic : string) (partition : Z)
    (process : Processor PD Host) (st : Loop') :
  MessageProcessor conf = Some process →
  (∀ m h, (process (procDependencies c) m h).1 = None) →
  rd_closed (ls_reader st) = false →
  serves (ls_reader st) (rd_offset (ls_reader st)) n →
  accepts_commits (ls_gen st) →
  - 2 ^ 63 ≤ rd_offset (ls_reader st) →
  rd_offset (ls_reader st) + Z.of_nat n < 2 ^ 63 →
  ∃ st',
    readLoop n c conf topic partition st = Running st'
    ∧ rd_offset (ls_reader st') = rd_offset (ls_reader st) + Z.of_nat n
    ∧ gen_commit_calls (ls_gen st')
      = gen_commit_calls (ls_gen st)
        ++ (offset_map topic partition
              <$> seqZ (rd_offset (ls_reader st)) (Z.of_nat n))
    ∧ ls_failMessages st' = ls_failMessages st
    ∧ ls_log st' = ls_log st
    ∧ (n ≠ 0%nat →
       committed_offset (ls_gen st') topic partition
       = Some (rd_offset (ls_reader st) + Z.of_nat n - 1)).
Proof.
  intros Hproc Hok. revert st.
  induction n as [|n IH]; intros st Hopen Hserves Hacc Hlo Hhi.
  { exists st. simpl. rewrite Z.add_0_r, app_nil_r. done. }
  destruct (Hserves (rd_offset (ls_reader st))) as (msg & Hfetch & Hoff);
    [lia|].
  assert (ReadMessage (ls_reader st)
          = (inl msg, mkReader (rd_fetch (ls_reader st))
                        (int64 (km_Offset msg + 1)) false)) as Hread.
  { unfold ReadMessage. by rewrite Hopen, Hfetch. }
  destruct (process (procDependencies c)
              (newKafkaGoMessage msg (messageCodec conf)) (ls_host st))
    as [e host'] eqn:Hres.
  assert (e = None) as ->.
  { by rewrite <- (Hok (newKafkaGoMessage msg (messageCodec conf))
                     (ls_host st)), Hres. }
  simpl.
  rewrite (loopBody_success_pass _ _ _ _ _ _ _ _ _ Hread Hproc Hres).
  unfold ls_commit; simpl.
  destruct (commitOffset_accepting topic partition (km_Offset msg)
              (ls_gen st) (ls_log st) Hacc) as (Hacc1 & Hcalls1 & Hcomm1 & Hlog1).
  destruct (commitOffset topic partition (km_Offset msg) (ls_gen st)
              (ls_log st)) as [g1 lg1]; simpl in *. subst lg1.
  rewrite int64_in_range by lia.
  set (st1 := mkLoopState _ _ _ _ _ _).
  destruct (IH st1) as (st' & Hrun & Hpos & Hcalls & Hch & Hlog & Hcomm);
    simpl; try done; try lia.
  { intros o Ho. apply Hserves. lia. }
  exists st'. split; [done|]. simpl in *.
  rewrite Hpos, Hcalls, Hcalls1, Hoff. repeat split; try done.
  - lia.
  - rewrite <- app_assoc. f_equal.
    rewrite (seqZ_cons _ (Z.of_nat (S n))) by lia.
    rewrite fmap_cons. simpl. do 3 f_equal; lia.
  - intros _. destruct n as [|n].
    + simpl in Hrun. injection Hrun as <-. simpl.
      rewrite Hcomm1. f_equal. lia.
    + rewrite Hcomm by done. f_equal. lia.
Qed.

(** X5.  When the processor succeeds on every record and the coordinator
    accepts the commits, [n] passes over [n] records at consecutive offsets
    commit these offsets one by one, in order; afterwards the committed
    offset is that of the last record and the reader stands behind it, and
    nothing has been logged or put on the fail channel. *)
Theorem readLoop_successes_commit_in_order (n : nat)
    (c : kafkagoConsumer PD Host) (conf : TopicConf') (topic : string)
    (partition : Z) (process : Processor PD Host) (st : Loop') :
  MessageProcessor conf = Some process →
  (∀ m h, (process (procDependencies c) m h).1 = None) →
  rd_closed (ls_reader st) = false →
  serves (ls_reader st) (rd_offset (ls_reader st)) n →
  accepts_commits (ls_gen st) →
  - 2 ^ 63 ≤ rd_offset (ls_reader st) →
  rd_offset (ls_reader st) + Z.of_nat n < 2 ^ 63 →
  ∃ st',
    readLoop n c conf topic partition st = Running st'
    ∧ rd_offset (ls_reader st') = rd_offset (ls_reader st) + Z.of_nat n
    ∧ gen_commit_calls (ls_gen st')
      = gen_commit_calls (ls_gen st)
        ++ (offset_map topic partition
              <$> seqZ (rd_offset (ls_reader st)) (Z.of_nat n))
    ∧ ls_failMessages st' = ls_failMessages st
    ∧ ls_log st' = ls_log st
    ∧ (n ≠ 0%nat →
       committed_offset (ls_gen st') topic partition
       = Some (rd_offset (ls_reader st) + Z.of_nat n - 1)).
Proof. apply readLoop_successes_aux. Qed.

(** X6.  A record on which the processor fails every time holds the loop:
    each pass reads it again, commits the offset before it and then its
    own, and leaves the reader on it; no later record is reached, however
    many passes are made. *)
Theorem readLoop_failing_record_holds_loop (n : nat)
    (c : kafkagoConsumer PD Host) (conf : TopicConf') (topic : string)
    (partition : Z) (process : Processor PD Host) (msg : kafka_Message)
    (st : Loop') :
  MessageProcessor conf = Some process →
  rd_closed (ls_reader st) = false →
  rd_fetch (ls_reader st) (rd_offset (ls_reader st)) = Some msg →
  km_Offset msg = rd_offset (ls_reader st) →
  (∀ h, ∃ err,
     (process (procDependencies c) (newKafkaGoMessage msg (messageCodec conf))
        h).1 = Some err) →
  accepts_commits (ls_gen st) →
  ∃ st',
    readLoop n c conf topic partition st = Running st'
    ∧ rd_offset (ls_reader st') = km_Offset msg
    ∧ rd_closed (ls_reader st') = false
    ∧ gen_commit_calls (ls_gen st')
      = gen_commit_calls (ls_gen st)
        ++ concat (replicate n
                     [offset_map topic partition (int64 (km_Offset msg - 1));
                      offset_map topic partition (km_Offset msg)])
    ∧ (n ≠ 0%nat →
       committed_offset (ls_gen st') topic partition = Some (km_Offset msg)).
Proof.
  intros Hproc Hopen Hfetch Hoff Hfails. revert st Hopen Hfetch Hoff.
  induction n as [|n IH]; intros st Hopen Hfetch Hoff Hacc.
  { exists st. simpl. by rewrite app_nil_r. }
  assert (ReadMessage (ls_reader st)
          = (inl msg, mkReader (rd_fetch (ls_reader st))
                        (int64 (km_Offset msg + 1)) false)) as Hread.
  { unfold ReadMessage. by rewrite Hopen, Hfetch. }
  destruct (process (procDependencies c)
              (newKafkaGoMessage msg (messageCodec conf)) (ls_host st))
    as [e host'] eqn:Hres.
  destruct (Hfails (ls_host st)) as [err Herr]. rewrite Hres in Herr.
  simpl in Herr. subst e.
  destruct (loopBody_failure_pass c conf topic partition st msg _ process err
              host' Hread Hproc Hres)
    as (st1 & Hbody & Hrd1 & _ & _ & Hgen1 & _).
  simpl. rewrite Hbody.
  destruct (commitOffset_accepting topic partition (int64 (km_Offset msg - 1))
              (ls_gen st) [] Hacc) as (Hacc0 & Hcalls0 & _ & _).
  destruct (commitOffset_accepting topic partition (km_Offset msg) _ []
              Hacc0) as (Hacc1 & Hcalls1 & Hcomm1 & _).
  rewrite <- Hgen1 in Hacc1, Hcalls1, Hcomm1.
  destruct (IH st1) as (st' & Hrun & Hpos & Hcl & Hcalls & Hcomm).
  - by rewrite Hrd1.
  - rewrite Hrd1; simpl. by rewrite Hoff.
  - by rewrite Hrd1.
  - done.
  - exists st'. split; [done|]. split; [done|]. split; [done|]. split.
    + rewrite Hcalls, Hcalls1, Hcalls0. simpl. by rewrite <- !app_assoc.
    + intros _. destruct n as [|n].
      * simpl in Hrun. by injection Hrun as <-.
      * by apply Hcomm.
Qed.

(** ** The loops of a generation *)

Lemma sched_inv_started_due (c : kafkagoConsumer PD Host) (s : Sched) :
  sched_inv c s →
  (match sc_pc s with AtGo _ | AtWait => True | _ => False end) →
  started_due c s.
Proof.
  intros [_ Hpc] Hin g Hg.
  destruct (sc_pc s); try done;
    destruct Hpc as (g' & Hg' & Hperm);
    rewrite Hg in Hg'; injection Hg' as <-;
    rewrite <- Hperm; by apply submseteq_inserts_r.
Qed.

Lemma startConsume_step_started_due (c : kafkagoConsumer PD Host) (m : Move)
    (s s' : Sched) :
  sched_inv c s → started_due c s →
  startConsume_step c m s = Some s' → started_due c s'.
Proof.
  intros Hinv Hdue Hstep.
  pose proof (startConsume_step_inv c m s s' Hinv Hstep) as Hinv'.
  destruct s as [pc gen wg topics loops started nexts lg].
  destruct Hinv as [_ Hpc]. unfold startConsume_step in Hstep. simpl in *.
  destruct m as [|[g|e]| | | |i|i].
  - (* the call of Next *)
    destruct pc; try done. by injection Hstep as <-.
  - (* Next returns a generation *)
    destruct pc; try done. injection Hstep as <-.
    by apply sched_inv_started_due.
  - (* Next returns an error *)
    destruct pc; try done. injection Hstep as <-. by intros g [=].
  - (* the sleep ends *)
    destruct pc; try done. by injection Hstep as <-.
  - (* one go statement, or the end of the for *)
    destruct pc as [| | |[|t rest]|]; try done; injection Hstep as <-;
      by apply sched_inv_started_due.
  - (* Wait returns *)
    destruct pc; try done. destruct (decide (wg = 0)); [|done].
    by injection Hstep as <-.
  - (* a consumeTopic goroutine runs *)
    destruct (topics !! i) as [t|] eqn:Ht; [|done].
    destruct gen as [g|]; [|done]. injection Hstep as <-.
    destruct pc; try (subst topics; done);
      by apply sched_inv_started_due.
  - (* a partition loop returns *)
    destruct (loops !! i); [|done]. by injection Hstep as <-.
Qed.

Lemma reachable_started_due (c : kafkagoConsumer PD Host) (s : Sched) :
  reachable c s → started_due c s.
Proof.
  intros [ms Hrun]. revert Hrun.
  assert (started_due c sched_init) as Hdue by (by intros g [=]).
  revert Hdue. generalize (sched_init_inv c). generalize sched_init.
  induction ms as [|m ms IH]; intros s0 Hinv Hdue; simpl.
  - by intros [= <-].
  - destruct (startConsume_step c m s0) as [s1|] eqn:Hstep; [|done].
    apply IH.
    + by eapply startConsume_step_inv.
    + by eapply startConsume_step_started_due.
Qed.

Lemma NoDup_of_submseteq {A : Type} (l k : list A) :
  l ⊆+ k → NoDup k → NoDup l.
Proof.
  intros (l2 & Hsub & Hperm)%submseteq_sublist_l Hk.
  rewrite <- Hperm in Hk. by eapply sublist_NoDup.
Qed.

Lemma elem_of_concat_inv {A : Type} (x : A) (ls : list (list A)) :
  x ∈ concat ls → ∃ l, x ∈ l ∧ l ∈ ls.
Proof.
  induction ls as [|l ls IH]; simpl.
  - by intros ?%elem_of_nil.
  - intros [Hin|Hin]%elem_of_app.
    + exists l. split; [done|by left].
    + destruct (IH Hin) as (l' & ? & ?). exists l'. split; [done|by right].
Qed.

Lemma consumeTopic_partitions (g : Generation) (topic : string) :
  task_partition <$> consumeTopic g topic
  = (λ a, (topic, pa_ID a)) <$> default [] (Assignments g !! topic).
Proof.
  unfold consumeTopic. rewrite <- list_fmap_compose. done.
Qed.

Lemma generation_partitions_NoDup (g : Generation) (names : list string) :
  NoDup names →
  (∀ t, NoDup (pa_ID <$> default [] (Assignments g !! t))) →
  NoDup (task_partition <$> concat (consumeTopic g <$> names)).
Proof.
  intros Hnames Hids. induction Hnames as [|t names Hnotin Hnames IH]; simpl.
  { constructor. }
  rewrite fmap_app. apply NoDup_app. split; [|split; [|done]].
  - rewrite consumeTopic_partitions.
    specialize (Hids t). revert Hids.
    generalize (default [] (Assignments g !! t)). intros l.
    rewrite (list_fmap_compose pa_ID (λ i, (t, i))).
    apply NoDup_fmap_2. by intros i j [=].
  - intros [t' p'] Hin1 Hin2.
    rewrite consumeTopic_partitions in Hin1.
    apply list_elem_of_fmap in Hin1 as (a & [= -> ->] & _).
    apply list_elem_of_fmap in Hin2 as (task & Htask & Hin2).
    apply elem_of_concat_inv in Hin2 as (tasks & Hin2 & Htasks).
    apply list_elem_of_fmap in Htasks as (t'' & -> & Hin3).
    unfold consumeTopic in Hin2.
    apply list_elem_of_fmap in Hin2 as (a' & -> & _).
    injection Htask as -> _. done.
Qed.

(** X7.  In a generation no partition is read by two loops: as long as
    the subscribed topic names are distinct and the generation assigns each
    partition of a topic once, the loops that have been started in any
    reachable state are on distinct (topic, partition) pairs. *)
Theorem startConsume_one_loop_per_partition (c : kafkagoConsumer PD Host)
    (s : Sched) (g : Generation) :
  reachable c s →
  sc_gen s = Some g →
  NoDup (topicNames c) →
  (∀ t, NoDup (pa_ID <$> default [] (Assignments g !! t))) →
  NoDup (task_partition <$> sc_started s).
Proof.
  intros Hreach Hgen Hnames Hids.
  pose proof (reachable_started_due c s Hreach g Hgen) as Hdue.
  eapply NoDup_of_submseteq; [by apply fmap_submseteq, Hdue|].
  by apply generation_partitions_NoDup.
Qed.

(** X8.  The counter of [c.consumerWait] never goes below zero, in any
    state the goroutines can reach: [Done] is called once per [consumeTopic]
    and each [consumeTopic] has been added before it was started. *)
Theorem startConsume_wait_group_not_negative (c : kafkagoConsumer PD Host)
    (s : Sched) :
  reachable c s → 0 ≤ sc_wg s.
Proof. intros Hreach. destruct (reachable_inv c s Hreach) as [-> _]. lia. Qed.

(** ** The fail channel of a constructed consumer *)

Lemma make_chan_refuses {A : Type} (v : A) : trySend (make_chan 0) v = None.
Proof. done. Qed.

Lemma make_chan_not_accepting {A : Type} : ¬ can_accept (@make_chan A 0).
Proof. unfold can_accept; simpl. lia. Qed.

(** X9.  Both constructors make [failMessages] without a buffer.  On a
    consumer as constructed, while no receiver is waiting on the channel, a
    record whose processing fails for a topic with a failed-processing
    topic is not forwarded: the pass leaves the channel as it was made and
    logs that the message was not sent to the fail handler.  This holds of
    the kafka-go read loop and of [ConsumeClaim] alike. *)
Theorem constructed_consumer_drops_without_receiver :
  (∀ (names : list string) (tconf : gmap string (TopicConfig PD Host))
     (pd : PD) (b : kafkagoBuilt PD Host) (conf : TopicConf')
     (topic : string) (partition : Z) (st : Loop') (msg : kafka_Message)
     (rd : Reader) (process : Processor PD Host) (err : error) (host' : Host),
     newKafkagoConsumer names tconf pd None = BuiltWith (Some b) None [] →
     ls_failMessages st = kb_failMessages b →
     ReadMessage (ls_reader st) = (inl msg, rd) →
     MessageProcessor conf = Some process →
     process (procDependencies (kb_consumer b))
       (newKafkaGoMessage msg (messageCodec conf)) (ls_host st)
     = (Some err, host') →
     FailedProcessingTopic conf ≠ "" →
     ∃ st',
       loopBody (kb_consumer b) conf topic partition st = Continue st'
       ∧ ls_failMessages st' = make_chan 0
       ∧ LogError LogCatKafkaConsume
           (errEvent notSentToFailHandler (km_Topic msg)
              (int32 (km_Partition msg)) (km_Offset msg)) ∈ ls_log st')
  ∧ (∀ (tconf : gmap string (TopicConfig PD Host)) (names : list string)
       (pd : PD) (b : saramaBuilt PD Host) (msg : sarama_ConsumerMessage)
       (st : ClaimState Host) (process : Processor PD Host) (err : error)
       (host' : Host),
       newSaramaConsumer tconf names pd None = BuiltWith b None [] →
       Some (cs_failMessages st) = sb_failMessages b →
       Name (topicConf_lookup tconf (sm_Topic msg)) ≠ "" →
       messageCodec (topicConf_lookup tconf (sm_Topic msg)) ≠ None →
       MessageProcessor (topicConf_lookup tconf (sm_Topic msg))
       = Some process →
       process pd
         (newSaramaMessage msg
            (messageCodec (topicConf_lookup tconf (sm_Topic msg))))
         (cs_host st) = (Some err, host') →
       FailedProcessingTopic (topicConf_lookup tconf (sm_Topic msg)) ≠ "" →
       ∃ st',
         claimBody (sb_consumer b) msg st = Continue st'
         ∧ cs_failMessages st' = make_chan 0
         ∧ cs_marked st' = cs_marked st
         ∧ LogError LogCatKafkaConsume
             (errEvent notSentToFailHandler (sm_Topic msg)
                (int32 (sm_Partition msg)) (sm_Offset msg)) ∈ cs_log st').
Proof.
  split.
  - intros names tconf pd b conf topic partition st msg rd process err host'
      Hbuilt Hch Hread Hproc Hfail Hdlt.
    injection Hbuilt as <-. simpl in *.
    destruct (loopBody_forwards_once (mkKafkagoConsumer names tconf pd) conf
                topic partition st msg rd process err host' Hread Hproc Hfail
                Hdlt) as (st' & new & Hbody & Hlog & _ & Hdrop).
    exists st'. split; [done|].
    rewrite Hch in Hdrop.
    destruct (Hdrop make_chan_not_accepting) as [Hsame Hline].
    split; [done|]. rewrite Hlog.
    apply elem_of_app. right.
    apply list_elem_of_In.
    eapply (proj1 (List.filter_In forwardingEntry _ new)).
    rewrite Hline. by left.
  - intros tconf names pd b msg st process err host'
      Hbuilt Hch Hname Hcodec Hproc Hfail Hdlt.
    injection Hbuilt as <-. simpl in *. injection Hch as Hch.
    destruct (claimBody_forwards_once (mkSaramaConsumer tconf names pd) msg st
                process err host' Hname Hcodec Hproc Hfail Hdlt)
      as (st' & new & Hbody & Hlog & _ & Hdrop).
    exists st'. split; [done|].
    rewrite Hch in Hdrop.
    destruct (Hdrop make_chan_not_accepting) as [Hsame Hline].
    split; [done|]. split.
    + pose proof (claimBody_by_invocation (mkSaramaConsumer tconf names pd)
                    msg st) as Hinv.
      unfold invocation in Hinv; simpl in Hinv.
      rewrite decide_False in Hinv by (intros [?|?]; done).
      rewrite Hproc, Hfail in Hinv.
      destruct Hinv as (st'' & Hbody' & Hmarked & _).
      rewrite Hbody in Hbody'. by injection Hbody' as ->.
    + rewrite Hlog. apply elem_of_app. right.
      apply list_elem_of_In.
      eapply (proj1 (List.filter_In forwardingEntry _ new)).
      rewrite Hline. by left.
Qed.

(** ** Runs of [ConsumeClaim] *)

(** X11.  [ConsumeClaim] only ever adds to the marks of the session, and
    what it adds is a subsequence of the messages it was given: no message
    is marked that was not claimed, none out of order, none more often than
    it was delivered. *)
Theorem ConsumeClaim_marks_subsequence (c : saramaConsumer PD Host)
    (events : list ClaimEvent) (st : ClaimState Host) :
  ∃ new,
    cs_marked (run_state (ConsumeClaim c events st)) = cs_marked st ++ new
    ∧ new `sublist_of` claimedMessages events.
Proof.
  revert st. induction events as [|ev events IH]; intros st; simpl.
  { exists []. by rewrite app_nil_r. }
  destruct ev as [msg| |]; simpl;
    try (exists []; rewrite app_nil_r; split; [done|apply sublist_nil_l]).
  pose proof (claimBody_by_invocation c msg st) as Hstep.
  destruct (invocation c msg (cs_host st)) as [| |[err|] h'];
    destruct Hstep as (st' & -> & Hrest).
  - destruct Hrest as [Hm _]. destruct (IH st') as (new & -> & Hsub).
    exists new. rewrite Hm. split; [done|]. by apply sublist_cons.
  - exists []. simpl. rewrite Hrest, app_nil_r. split; [done|].
    apply sublist_nil_l.
  - destruct Hrest as [Hm _]. destruct (IH st') as (new & -> & Hsub).
    exists new. rewrite Hm. split; [done|]. by apply sublist_cons.
  - destruct Hrest as [Hm _]. destruct (IH st') as (new & -> & Hsub).
    exists (msg :: new). rewrite Hm, <- app_assoc. split; [done|].
    by apply sublist_skip.
Qed.

(** ** The driver of the sarama backend *)

Lemma Setup_ok (st : DriverState) :
  driver_ok st →
  ∃ st', Setup st = Some (None, st')
         ∧ ds_chans st' = <[ds_ready st := true]> (ds_chans st)
         ∧ ds_ready st' = ds_ready st
         ∧ ds_trace st' = ds_trace st.
Proof. intros [Hopen _]. unfold Setup. rewrite Hopen. by eexists. Qed.

(** One call of [Consume] from a state in which [c.ready] is fresh. *)
Lemma consumeDriver_call (call : ConsumeCall) (rest : list ConsumeCall)
    (st : DriverState) :
  driver_ok st →
  ∃ st1,
    ds_chans st1 = <[ds_ready st := cc_session call]> (ds_chans st)
    ∧ ds_ready st1 = ds_ready st
    ∧ consumeDriver (call :: rest) st
      = if cc_cancelled call then Returned st1
        else consumeDriver rest
               (mkDriverState (ds_chans st1 ++ [false])
                  (length (ds_chans st1)) (ds_trace st1 ++ [ReadyRemade])).
Proof.
  intros Hok. simpl.
  destruct (cc_session call) eqn:Hs.
  - destruct (Setup_ok st Hok) as (st' & -> & Hch & Hr & _). simpl.
    destruct (cc_err call); eexists; (split; [|split; [|done]]); simpl; done.
  - destruct Hok as [Hopen _].
    destruct (cc_err call); eexists; (split; [|split; [|done]]); simpl;
      try done; by rewrite list_insert_id.
Qed.

Lemma driver_ok_remade (chans : list bool) (trace : list DriverEvent) :
  driver_ok (mkDriverState (chans ++ [false]) (length chans) trace).
Proof.
  unfold driver_ok; simpl. split.
  - by rewrite lookup_app_r, Nat.sub_diag by lia.
  - rewrite length_app; simpl. lia.
Qed.

Lemma consumeDriver_keeps_older (calls : list ConsumeCall) (st : DriverState)
    (i : nat) :
  driver_ok st → (i < ds_ready st)%nat →
  ds_chans (loop_state (consumeDriver calls st)) !! i = ds_chans st !! i.
Proof.
  revert st. induction calls as [|call rest IH]; intros st Hok Hi; [done|].
  destruct (consumeDriver_call call rest st Hok) as (st1 & Hch & Hr & ->).
  assert (ds_chans st1 !! i = ds_chans st !! i) as Hsame.
  { rewrite Hch. apply list_lookup_insert_ne. lia. }
  assert (length (ds_chans st1) = length (ds_chans st)) as Hlen.
  { by rewrite Hch, length_insert. }
  destruct (cc_cancelled call); simpl; [done|].
  rewrite IH; simpl.
  - rewrite lookup_app_l; [done|]. destruct Hok as [_ Hok]. lia.
  - apply driver_ok_remade.
  - destruct Hok as [_ Hok]. lia.
Qed.


Lemma driver_init_ok : driver_ok driver_init.
Proof. done. Qed.


Lemma consumeDriver_ready_from (k : nat) (calls : list ConsumeCall)
    (call : ConsumeCall) (st : DriverState) :
  driver_ok st →
  calls !! k = Some call →
  (∀ j call', (j < k)%nat → calls !! j = Some call' →
              cc_cancelled call' = false) →
  ds_chans (loop_state (consumeDriver calls st)) !! (ds_ready st + k)%nat
  = Some (cc_session call).
Proof.
  revert calls st. induction k as [|k IH]; intros calls st Hok Hk Hbefore.
  - destruct calls as [|call0 rest]; [done|]. injection Hk as ->.
    destruct (consumeDriver_call call rest st Hok) as (st1 & Hch & Hr & ->).
    rewrite Nat.add_0_r.
    assert (ds_chans st1 !! ds_ready st = Some (cc_session call)) as Hset.
    { rewrite Hch. apply list_lookup_insert_eq.
      destruct Hok as [_ Hok]. lia. }
    destruct (cc_cancelled call); simpl; [done|].
    rewrite consumeDriver_keeps_older; simpl.
    + rewrite lookup_app_l; [done|]. by eapply lookup_lt_Some.
    + apply driver_ok_remade.
    + rewrite Hch, length_insert. destruct Hok as [_ Hok]. lia.
  - destruct calls as [|call0 rest]; [done|]. simpl in Hk.
    destruct (consumeDriver_call call0 rest st Hok) as (st1 & Hch & Hr & ->).
    rewrite (Hbefore 0%nat call0) by (done || lia).
    specialize (IH rest
                  (mkDriverState (ds_chans st1 ++ [false])
                     (length (ds_chans st1)) (ds_trace st1 ++ [ReadyRemade]))
                  (driver_ok_remade _ _) Hk).
    simpl in IH.
    assert (length (ds_chans st1) = S (ds_ready st)) as Hlen.
    { rewrite Hch, length_insert. by destruct Hok as [_ <-]. }
    rewrite Hlen in IH.
    replace (ds_ready st + S k)%nat with (S (ds_ready st) + k)%nat by lia.
    rewrite Hlen. apply IH.
    intros j call' Hj Hlook. apply (Hbefore (S j)); [lia|done].
Qed.

(** X13.  The channel that is [c.ready] during the [k]-th call of
    [Consume] is closed if and only if sarama started a session, and so
    ran [Setup], in that very call; later sessions close later channels.
    In particular the channel the constructor made stays open for ever
    when the first call of [Consume] returns without a session. *)
Theorem consumeDriver_ready_closed_by_own_call (k : nat)
    (calls : list ConsumeCall) (call : ConsumeCall) :
  calls !! k = Some call →
  (∀ j call', (j < k)%nat → calls !! j = Some call' →
              cc_cancelled call' = false) →
  ds_chans (loop_state (consumeDriver calls driver_init)) !! k
  = Some (cc_session call).
Proof.
  intros Hk Hbefore.
  apply (consumeDriver_ready_from k calls call driver_init driver_init_ok Hk
           Hbefore).
Qed.

(** ** Construction and use of the producer *)

(** X14.  A producer whose construction failed, be it on an unknown
    producer type or on an error of sarama's constructor, is returned
    uninitialised, without a producer and without a response goroutine,
    the error having been logged; every [produceMessage] on it returns
    [errInvalidProducer] and makes no broker call. *)
Theorem failed_producer_rejects_messages (formatFloat : Z → Z → string)
    (prodType : producerType) (dial : option error)
    (conf : gmap string TopicConf') (lg : Log) (p : saramaProducer PD Host)
    (err : error) (gs : list Goroutine) (lg' : Log) :
  newSaramaProducer prodType dial conf lg = (p, Some err, gs, lg') →
  initialized p = false
  ∧ producer p = NilProducer
  ∧ gs = []
  ∧ lg' = lg ++ [LogError LogCatKafkaProducerInit err]
  ∧ (∀ name, prodType = ProducerTypeOther name → err = errInvalidProducer)
  ∧ ∀ topic key msg w,
      (produceMessage formatFloat p topic key msg w).1
      = Some errInvalidProducer
      ∧ pw_sent (produceMessage formatFloat p topic key msg w).2 = pw_sent w
      ∧ pw_input (produceMessage formatFloat p topic key msg w).2
        = pw_input w.
Proof.
  unfold newSaramaProducer.
  destruct prodType as [| |name], dial as [e|]; simpl;
    intros [= <- <- <- <-]; repeat split; try done;
    by intros name' [=].
Qed.

Lemma handleAsyncResponses_async (responses : list AsyncResponse) (lg : Log) :
  handleAsyncResponses AsyncProducer responses lg
  = Running (lg ++ (responseEntry <$> responses)).
Proof.
  revert lg. induction responses as [|r rest IH]; intros lg; simpl.
  - by rewrite app_nil_r.
  - destruct r; rewrite IH, <- app_assoc; done.
Qed.

(** X15.  The response goroutine of an async producer that was constructed
    without error never panics and never returns: whatever responses
    arrive, it logs one line for each, in the order of arrival, and waits
    for more. *)
Theorem async_producer_logs_every_response (dial : option error)
    (conf : gmap string TopicConf') (lg : Log) (p : saramaProducer PD Host)
    (gs : list Goroutine) (lg' : Log) :
  newSaramaProducer ProducerTypeAsync dial conf lg = (p, None, gs, lg') →
  initialized p = true
  ∧ sp_topicConf p = conf
  ∧ lg' = lg
  ∧ ∃ g, gs = [g]
         ∧ ∀ responses lg0,
             runGoroutine g responses lg0
             = Running (lg0 ++ (responseEntry <$> responses)).
Proof.
  unfold newSaramaProducer. destruct dial as [e|]; [done|].
  intros [= <- <- <-]; simpl. repeat split.
  eexists; split; [done|]. intros responses lg0; simpl.
  apply handleAsyncResponses_async.
Qed.

Lemma getSaramaEncoder_no_call (formatFloat : Z → Z → string)
    (conf : TopicConf') (msg : GoValue) (w : ProducerWorld) :
  pw_sent (getSaramaEncoder formatFloat conf msg w).2 = pw_sent w
  ∧ pw_input (getSaramaEncoder formatFloat conf msg w).2 = pw_input w.
Proof.
  unfold getSaramaEncoder.
  destruct (messageCodec conf) as [codec|]; [|done].
  destruct msg; simpl; try done;
    try (destruct (decide _); simpl; [|done]);
    unfold newSaramaStructEncoder;
    by destruct (codec_encode codec _).
Qed.

(** X16.  When [getSaramaEncoder] reports an error, an unsupported payload
    type or an error of the codec on a struct, [produceMessage] returns
    that error, logs it and makes no broker call, whatever the producer. *)
Theorem produceMessage_encoder_error_not_sent (formatFloat : Z → Z → string)
    (p : saramaProducer PD Host) (topic key : string) (msg : GoValue)
    (w : ProducerWorld) (err : error) :
  (getSaramaEncoder formatFloat (topicConf_lookup (sp_topicConf p) topic)
     msg w).1.2 = Some err →
  (produceMessage formatFloat p topic key msg w).1 = Some err
  ∧ pw_sent (produceMessage formatFloat p topic key msg w).2 = pw_sent w
  ∧ pw_input (produceMessage formatFloat p topic key msg w).2 = pw_input w
  ∧ last (pw_log (produceMessage formatFloat p topic key msg w).2)
    = Some (LogError LogCatKafkaProduce err).
Proof.
  unfold produceMessage.
  pose proof (getSaramaEncoder_no_call formatFloat
                (topicConf_lookup (sp_topicConf p) topic) msg w) as [Hs Hi].
  destruct (getSaramaEncoder _ _ _ _) as [[se e] w1]. simpl in *.
  intros ->. simpl. by rewrite last_snoc.
Qed.

(** X17.  A text payload for a topic with a codec goes to the broker as it
    is: the message carries the topic, the key and the very text, and the
    codec is not asked to encode anything.  A sync producer passes it to
    [SendMessage] and returns the broker's answer; an async producer puts
    it on its input channel and returns nil. *)
Theorem produceMessage_text_passes_through (formatFloat : Z → Z → string)
    (p : saramaProducer PD Host) (topic key text : string) (codec : Codec)
    (w : ProducerWorld) :
  messageCodec (topicConf_lookup (sp_topicConf p) topic) = Some codec →
  let m := mkProducerMessage topic (StringEncoder key)
             (Some (StringEncoder text)) in
  let r := produceMessage formatFloat p topic key (VString text) w in
  pw_encoded r.2 = pw_encoded w
  ∧ match producer p with
    | SyncProducer =>
        r.1 = pw_ack w (length (pw_sent w))
        ∧ pw_sent r.2 = pw_sent w ++ [m]
        ∧ pw_input r.2 = pw_input w
    | AsyncProducer => r = (None, enqueue m w)
    | NilProducer =>
        r.1 = Some errInvalidProducer
        ∧ pw_sent r.2 = pw_sent w ∧ pw_input r.2 = pw_input w
    end.
Proof.
  intros Hcodec m r. subst r.
  unfold produceMessage, getSaramaEncoder. rewrite Hcodec. simpl.
  destruct (producer p); simpl; try done.
  by destruct (pw_ack w (length (pw_sent w))).
Qed.

(** X18.  One [produceMessage] makes at most one broker call, for the topic
    and with the key it was given, and through the one producer it holds:
    the messages passed to [SendMessage] and the messages on the input
    channel are as before, or one of the two has grown by that one
    message. *)
Theorem produceMessage_at_most_one_call (formatFloat : Z → Z → string)
    (p : saramaProducer PD Host) (topic key : string) (msg : GoValue)
    (w : ProducerWorld) :
  let w' := (produceMessage formatFloat p topic key msg w).2 in
  (pw_sent w' = pw_sent w ∧ pw_input w' = pw_input w)
  ∨ ∃ value,
      (producer p = SyncProducer
       ∧ pw_sent w'
         = pw_sent w ++ [mkProducerMessage topic (StringEncoder key) value]
       ∧ pw_input w' = pw_input w)
      ∨ (producer p = AsyncProducer
         ∧ pw_input w'
           = pw_input w ++ [mkProducerMessage topic (StringEncoder key) value]
         ∧ pw_sent w' = pw_sent w).
Proof.
  unfold produceMessage.
  pose proof (getSaramaEncoder_no_call formatFloat
                (topicConf_lookup (sp_topicConf p) topic) msg w) as [Hs Hi].
  destruct (getSaramaEncoder _ _ _ _) as [[se e] w1]. simpl in Hs, Hi.
  destruct e as [err|]; simpl; [by left|].
  destruct (producer p); simpl.
  - right. exists se. left.
    destruct (pw_ack w1 (length (pw_sent w1))); simpl; by rewrite Hs, Hi.
  - right. exists se. right. simpl. by rewrite Hs, Hi.
  - by left.
Qed.

(** X19.  Whatever error [produceMessage] returns has been logged, and is
    the last line of the log when the call returns: an encoding error, the
    broker's refusal of a sync send or [errInvalidProducer]. *)
Theorem produceMessage_logs_returned_error (formatFloat : Z → Z → string)
    (p : saramaProducer PD Host) (topic key : string) (msg : GoValue)
    (w : ProducerWorld) (err : error) :
  (produceMessage formatFloat p topic key msg w).1 = Some err →
  last (pw_log (produceMessage formatFloat p topic key msg w).2)
  = Some (LogError LogCatKafkaProduce err).
Proof.
  unfold produceMessage.
  destruct (getSaramaEncoder _ _ _ _) as [[se e] w1].
  destruct e as [err'|]; simpl.
  { intros [= ->]. apply last_snoc. }
  destruct (producer p); simpl.
  - destruct (pw_ack w1 (length (pw_sent w1))) as [err'|]; simpl; [|done].
    intros [= ->]. apply last_snoc.
  - done.
  - intros [= <-]. apply last_snoc.
Qed.

(** ** A failing record and the fail channel *)

Lemma ls_commit_failMessages (topic : string) (partition offset : Z)
    (st : Loop') :
  ls_failMessages (ls_commit topic partition offset st) = ls_failMessages st.
Proof. unfold ls_commit. by destruct (commitOffset _ _ _ _ _). Qed.

(** The channel after a pass on which the processor fails, for a topic with
    a failed-processing topic. *)
Lemma loopBody_failure_channel (c : kafkagoConsumer PD Host)
    (conf : TopicConf') (topic : string) (partition : Z) (st : Loop')
    (msg : kafka_Message) (rd : Reader) (process : Processor PD Host)
    (err : error) (host' : Host) :
  ReadMessage (ls_reader st) = (inl msg, rd) →
  MessageProcessor conf = Some process →
  process (procDependencies c) (newKafkaGoMessage msg (messageCodec conf))
    (ls_host st) = (Some err, host') →
  FailedProcessingTopic conf ≠ "" →
  ls_failMessages (outcome_state (loopBody c conf topic partition st))
  = default (ls_failMessages st)
      (trySend (ls_failMessages st)
         (newFailedMessage (newKafkaGoMessage msg (messageCodec conf))
            (FailedProcessingTopic conf) err)).
Proof.
  intros Hread Hproc Hfail Hdlt.
  destruct (ReadMessage_record _ _ _ Hread) as (Hopen & _ & ->).
  unfold loopBody. rewrite Hread, Hproc; simpl. rewrite Hfail. simpl.
  rewrite ls_commit_failMessages.
  unfold onProcessingFailure; simpl. rewrite decide_True by done.
  unfold forwardFailed.
  destruct (trySend _ _); simpl; by rewrite ls_commit_failMessages.
Qed.

(** X20.  A record that fails on every pass is forwarded on every pass:
    with a failed-processing topic and receivers waiting, [n] passes over
    the record hand [n] failed messages for it to the fail channel. *)
Theorem readLoop_failing_record_forwarded_each_pass (n : nat)
    (c : kafkagoConsumer PD Host) (conf : TopicConf') (topic : string)
    (partition : Z) (process : Processor PD Host) (msg : kafka_Message)
    (err : error) (st : Loop') :
  MessageProcessor conf = Some process →
  FailedProcessingTopic conf ≠ "" →
  rd_closed (ls_reader st) = false →
  rd_fetch (ls_reader st) (rd_offset (ls_reader st)) = Some msg →
  km_Offset msg = rd_offset (ls_reader st) →
  (∀ h, (process (procDependencies c)
           (newKafkaGoMessage msg (messageCodec conf)) h).1 = Some err) →
  (n ≤ ch_recvq (ls_failMessages st))%nat →
  ∃ st',
    readLoop n c conf topic partition st = Running st'
    ∧ ch_handed (ls_failMessages st')
      = ch_handed (ls_failMessages st)
        ++ replicate n
             (newFailedMessage (newKafkaGoMessage msg (messageCodec conf))
                (FailedProcessingTopic conf) err)
    ∧ ch_recvq (ls_failMessages st')
      = (ch_recvq (ls_failMessages st) - n)%nat
    ∧ ch_buf (ls_failMessages st') = ch_buf (ls_failMessages st).
Proof.
  intros Hproc Hdlt Hopen Hfetch Hoff Hfails. revert st Hopen Hfetch Hoff.
  induction n as [|n IH]; intros st Hopen Hfetch Hoff Hrecv.
  { exists st. simpl. rewrite app_nil_r, Nat.sub_0_r. done. }
  assert (ReadMessage (ls_reader st)
          = (inl msg, mkReader (rd_fetch (ls_reader st))
                        (int64 (km_Offset msg + 1)) false)) as Hread.
  { unfold ReadMessage. by rewrite Hopen, Hfetch. }
  destruct (process (procDependencies c)
              (newKafkaGoMessage msg (messageCodec conf)) (ls_host st))
    as [e host'] eqn:Hres.
  pose proof (Hfails (ls_host st)) as Herr. rewrite Hres in Herr.
  simpl in Herr. subst e.
  pose proof (loopBody_failure_channel c conf topic partition st msg _ process
                err host' Hread Hproc Hres Hdlt) as Hch.
  destruct (loopBody_failure_pass c conf topic partition st msg _ process err
              host' Hread Hproc Hres)
    as (st1 & Hbody & Hrd1 & _).
  rewrite Hbody in Hch. simpl in Hch.
  unfold trySend in Hch.
  destruct (ch_recvq (ls_failMessages st)) as [|k] eqn:Hq; [lia|].
  simpl in Hch.
  destruct (IH st1) as (st' & Hrun & Hhanded & Hq' & Hbuf).
  - by rewrite Hrd1.
  - rewrite Hrd1; simpl. by rewrite Hoff.
  - by rewrite Hrd1.
  - rewrite Hch; simpl. lia.
  - exists st'. simpl. rewrite Hbody. split; [done|].
    rewrite Hhanded, Hq', Hbuf, Hch; simpl.
    by rewrite <- app_assoc.
Qed.

(** ** Topics and generations without entries *)

(** X21.  A claim whose messages all belong to topics without a populated
    configuration is consumed without effect: the processor is never
    called, so the host is as before, nothing is marked and nothing is put
    on the fail channel; each message consumed leaves one
    [errTopicConfMissing] line in the log and nothing else. *)
Theorem ConsumeClaim_unconfigured_claim_skipped (c : saramaConsumer PD Host)
    (events : list ClaimEvent) (st : ClaimState Host) :
  (∀ msg, msg ∈ claimedMessages events →
          Name (topicConf_lookup (topicConf c) (sm_Topic msg)) = ""
          ∨ messageCodec (topicConf_lookup (topicConf c) (sm_Topic msg))
            = None) →
  cs_marked (run_state (ConsumeClaim c events st)) = cs_marked st
  ∧ cs_host (run_state (ConsumeClaim c events st)) = cs_host st
  ∧ cs_failMessages (run_state (ConsumeClaim c events st))
    = cs_failMessages st
  ∧ cs_log (run_state (ConsumeClaim c events st))
    = cs_log st
      ++ replicate (leadingMessages events)
           (LogError LogCatKafkaConsume errTopicConfMissing).
Proof.
  revert st. induction events as [|ev events IH]; intros st Hall; simpl.
  { by rewrite app_nil_r. }
  destruct ev as [msg| |]; simpl; try by rewrite app_nil_r.
  rewrite claimBody_unconfigured_topic_skipped
    by (apply Hall; simpl; by left).
  destruct (IH (mkClaimState (cs_marked st) (cs_failMessages st) (cs_host st)
                  (cs_log st
                   ++ [LogError LogCatKafkaConsume errTopicConfMissing])
                  (Some errTopicConfMissing)))
    as (Hm & Hh & Hf & Hl).
  { intros msg' Hin. apply Hall. simpl. by right. }
  simpl in *. rewrite Hm, Hh, Hf, Hl, <- app_assoc. done.
Qed.

(** X22.  A generation that assigns this member no partition of any
    subscribed topic starts no partition loop: every [consumeTopic] finds
    no assignment for its topic and returns, and in no reachable state of
    the generation has a loop been started. *)
Theorem startConsume_unassigned_generation_starts_nothing
    (c : kafkagoConsumer PD Host) (s : Sched) (g : Generation) :
  reachable c s →
  sc_gen s = Some g →
  (∀ t, t ∈ topicNames c → default [] (Assignments g !! t) = []) →
  sc_started s = [].
Proof.
  intros Hreach Hgen Hnone.
  pose proof (reachable_started_due c s Hreach g Hgen) as Hdue.
  assert (concat (consumeTopic g <$> topicNames c) = []) as Hempty.
  { clear Hdue. induction (topicNames c) as [|t names IH]; [done|].
    simpl. unfold consumeTopic at 1.
    rewrite Hnone by (by left). simpl. apply IH.
    intros t' Hin. apply Hnone. by right. }
  rewrite Hempty in Hdue. by apply submseteq_nil_r.
Qed.

End MoreProperties.

(** * The properties on the sample inputs *)

(** The record at offset 42 of "orders" fails: the pass commits 41 and then
    42, and leaves 42 committed with the reader back at 42. *)
Lemma failure_at_42_commits_41_then_42 :
  ∃ st',
    loopBody ex_consumer ex_conf "orders" 0 ex_state = Continue st'
    ∧ rd_offset (ls_reader st') = 42
    ∧ offsets_for "orders" 0 (gen_commit_calls (ls_gen st'))
      = [Some 41; Some 42]
    ∧ committed_offset (ls_gen st') "orders" 0 = Some 42.
Proof.
  destruct (loopBody_failure_commits_failed_offset ex_consumer ex_conf
              "orders" 0 ex_state (mkKafkaMessage "orders" 0 42 [] [])
              (mkReader ex_fetch 43 false) ex_processor (extError "boom")
              1%nat)
    as (st' & Hbody & Hrd & Hcalls & Hcommitted); try reflexivity.
  exists st'. rewrite Hcalls. repeat split; try assumption.
Defined.

(** The record at offset 42 of "orders" fails in either backend while the
    router is parked on the channel: the failed message is handed over. *)
Lemma failed_order_reaches_router :
  (∃ st' new,
     loopBody ex_consumer ex_conf "orders" 0 ex_state = Continue st'
     ∧ ls_log st' = ls_log ex_state ++ new
     ∧ forwardedOnce
         (newFailedMessage
            (newKafkaGoMessage (mkKafkaMessage "orders" 0 42 [] [])
               (Some ex_codec)) "orders-failed" (extError "boom"))
         "orders" (int32 0) 42 ex_chan_listening (ls_failMessages st') new)
  ∧ (∃ st' new,
       claimBody ex_sarama ex_sarama_msg ex_claim_state = Continue st'
       ∧ cs_log st' = cs_log ex_claim_state ++ new
       ∧ forwardedOnce
           (newFailedMessage (newSaramaMessage ex_sarama_msg (Some ex_codec))
              "orders-failed" (extError "boom"))
           "orders" (int32 0) 42 ex_chan_listening (cs_failMessages st') new).
Proof.
  destruct (@failed_message_forwarded_once unit nat) as [Hkafkago Hsarama].
  split.
  - apply (Hkafkago ex_consumer ex_conf "orders" 0 ex_state
             (mkKafkaMessage "orders" 0 42 [] []) (mkReader ex_fetch 43 false)
             ex_processor (extError "boom") 1%nat); done.
  - apply (Hsarama ex_sarama ex_sarama_msg ex_claim_state ex_processor
             (extError "boom") 1%nat); done.
Defined.

(** [consumeTopic] hands one loop to [gen.Start] for the one assignment of
    "orders"; started on the sample broker it reads 42 twice. *)
Example orders_task_runs :
  consumeTopic ex_gen "orders" = [mkLoopTask "orders" 0 42]
  ∧ ∃ st',
      runTask 2 ex_consumer (λ _ _, ex_fetch) (mkLoopTask "orders" 0 42)
        ex_gen ex_chan_listening 0%nat []
      = Running st'
      ∧ ls_host st' = 2%nat
      ∧ committed_offset (ls_gen st') "orders" 0 = Some 42.
Proof.
  split; [done|].
  eexists. split; [by vm_compute|]. by vm_compute.
Qed.

(** Without a dead-letter topic the failing pass forwards nothing and
    commits 41 and then 42 all the same. *)
Example failure_without_dead_letter_topic :
  ∃ st',
    loopBody ex_consumer ex_conf_plain "orders" 0 ex_state = Continue st'
    ∧ ls_failMessages st' = ex_chan_listening
    ∧ ls_log st' = []
    ∧ offsets_for "orders" 0 (gen_commit_calls (ls_gen st'))
      = [Some 41; Some 42].
Proof. eexists. split; [by vm_compute|]. by vm_compute. Qed.

(** With the router away the hand-off is given up: the channel stays empty
    and the pass goes on. *)
Example failed_order_dropped :
  ∃ st',
    loopBody ex_consumer ex_conf "orders" 0
      (mkLoopState (mkReader ex_fetch 42 false) 42 ex_gen ex_chan_idle 0%nat [])
    = Continue st'
    ∧ ls_failMessages st' = ex_chan_idle
    ∧ ls_log st'
      = [LogError LogCatKafkaConsume
           (errEvent notSentToFailHandler "orders" 0 42)].
Proof. by eexists. Qed.

(** Redelivery: the record at 42 fails, is read again and succeeds; the
    commits of the two passes are 41, 42 and 42. *)
Example failure_then_redelivery :
  ∃ st',
    readLoop 2 ex_consumer ex_conf "orders" 0 ex_state = Running st'
    ∧ offsets_for "orders" 0 (gen_commit_calls (ls_gen st'))
      = [Some 41; Some 42; Some 42]
    ∧ rd_offset (ls_reader st') = 43.
Proof. eexists. split; [by vm_compute|]. by vm_compute. Qed.

(** A coordinator that refuses every commit: two attempts, two log lines,
    nothing committed. *)
Example refused_commit_is_retried_once :
  offsets_for "orders" 0
    (gen_commit_calls (commitOffset "orders" 0 42 ex_gen_refusing []).1)
  = [Some 42; Some 42]
  ∧ length (commitOffset "orders" 0 42 ex_gen_refusing []).2 = 2%nat
  ∧ committed_offset (commitOffset "orders" 0 42 ex_gen_refusing []).1
      "orders" 0 = None.
Proof. done. Qed.

(** A claim delivers offsets 42 and 43 and the context ends: the processor
    fails on 42 and succeeds on 43, which alone is marked. *)
Example claim_marks_only_processed :
  ∃ st',
    ConsumeClaim ex_sarama
      [ClaimMessage ex_sarama_msg;
       ClaimMessage (mkSaramaMessage "orders" 0 43 [] []); ContextDone]
      ex_claim_state
    = Result None st'
    ∧ cs_marked st' = [mkSaramaMessage "orders" 0 43 [] []].
Proof. by eexists. Qed.

(** An entry without name and codec: the kafka-go loop runs its processor
    on the record at 42 and commits 42; with no entry at all it panics. *)
Lemma unconfigured_orders_processed :
  (∃ st',
     loopBody ex_consumer_bare ex_conf_bare "orders" 0 ex_state_later
     = Continue st'
     ∧ ls_host st' = 2%nat
     ∧ last (gen_commit_calls (ls_gen st')) = Some (offset_map "orders" 0 42))
  ∧ (∃ st',
       loopBody ex_consumer_unconfigured TopicConfig_zero "orders" 0 ex_state
       = Panic nilDereference st'
       ∧ ls_log st' = []
       ∧ gen_commit_calls (ls_gen st') = []).
Proof.
  split.
  - apply (loopBody_unconfigured_topic_processed ex_consumer_bare "orders" 0
             ex_state_later (mkKafkaMessage "orders" 0 42 [] [])
             (mkReader ex_fetch 43 false)); [done|by left].
  - apply (loopBody_unconfigured_topic_processed ex_consumer_unconfigured
             "orders" 0 ex_state (mkKafkaMessage "orders" 0 42 [] [])
             (mkReader ex_fetch 43 false)); [done|by left].
Defined.

(** The same message in [ConsumeClaim] is reported and skipped. *)
Example unconfigured_orders_skipped_by_sarama :
  claimBody (mkSaramaConsumer {[ "orders" := ex_conf_bare ]} ["orders"] tt)
    ex_sarama_msg ex_claim_state
  = Continue
      (mkClaimState [] ex_chan_listening 0%nat
         [LogError LogCatKafkaConsume errTopicConfMissing]
         (Some errTopicConfMissing)).
Proof. done. Qed.

(** "orders" has no codec: a text payload goes to the broker with a nil
    value and the call returns the broker's answer, nil. *)
Lemma nil_codec_message_sent :
  getSaramaEncoder ex_formatFloat ex_conf_nocodec (VString "hello") ex_world
  = (None, None,
     pw_logged (LogError LogCatKafkaProduce (errCodecNil "orders")) ex_world)
  ∧ (produceMessage ex_formatFloat (ex_sync_producer ex_conf_nocodec)
       "orders" "k" (VString "hello") ex_world).1 = None
  ∧ pw_sent
      (produceMessage ex_formatFloat (ex_sync_producer ex_conf_nocodec)
         "orders" "k" (VString "hello") ex_world).2
    = [mkProducerMessage "orders" (StringEncoder "k") None].
Proof.
  apply (produceMessage_nil_codec_is_sent ex_formatFloat
           (ex_sync_producer ex_conf_nocodec) "orders" "k" (VString "hello")
           ex_world).
  done.
Defined.

(** [int64(7)] on "orders" with its codec is the string "7". *)
Lemma int64_7_encodes_to_7 :
  getSaramaEncoder ex_formatFloat ex_conf (VInt64 7) ex_world
  = (Some (StringEncoder "7"), None, ex_world)
  ∧ numericText ex_formatFloat (VInt64 7) = Some "7".
Proof.
  apply (getSaramaEncoder_numeric ex_formatFloat ex_conf ex_codec (VInt64 7)
           "7" ex_world); done.
Defined.

(** C4, as stated, fails: [int64(7)] on a topic without a codec yields no
    encoder at all, and a payload of Go's type [int] yields
    [errMessageType]. *)
Lemma numeric_payload_not_stringified :
  (getSaramaEncoder ex_formatFloat ex_conf_nocodec (VInt64 7) ex_world).1
  = (None, None)
  ∧ (getSaramaEncoder ex_formatFloat ex_conf (VOther KInt) ex_world).1
    = (None, Some errMessageType).
Proof. done. Qed.

(** A func payload on "orders" with its codec: [errMessageType] and no
    broker call. *)
Lemma func_payload_rejected :
  (produceMessage ex_formatFloat (ex_sync_producer ex_conf) "orders" "k"
     (VOther KFunc) ex_world).1 = Some errMessageType
  ∧ error_text errMessageType = Some "unsupported message type"
  ∧ pw_sent (produceMessage ex_formatFloat (ex_sync_producer ex_conf)
               "orders" "k" (VOther KFunc) ex_world).2 = []
  ∧ pw_input (produceMessage ex_formatFloat (ex_sync_producer ex_conf)
                "orders" "k" (VOther KFunc) ex_world).2 = []
  ∧ pw_encoded (produceMessage ex_formatFloat (ex_sync_producer ex_conf)
                  "orders" "k" (VOther KFunc) ex_world).2 = [].
Proof.
  apply (produceMessage_unsupported_type ex_formatFloat
           (ex_sync_producer ex_conf) "orders" "k" ex_codec (VOther KFunc)
           ex_world); done.
Defined.

(** C5, as stated, fails: a func payload on a topic without a codec is not
    rejected; the sync producer sends a message with a nil value and the
    call returns nil. *)
Lemma func_payload_without_codec_sent :
  ¬ ((produceMessage ex_formatFloat (ex_sync_producer ex_conf_nocodec)
        "orders" "k" (VOther KFunc) ex_world).1 = Some errMessageType
     ∧ brokerCalls
         (produceMessage ex_formatFloat (ex_sync_producer ex_conf_nocodec)
            "orders" "k" (VOther KFunc) ex_world).2 = brokerCalls ex_world).
Proof. by intros [? ?]. Qed.

(** A sync producer built without error: its response loop panics. *)
Lemma sync_producer_goroutine_panics :
  producer (ex_sync_producer ex_conf) = SyncProducer
  ∧ [go_handleAsyncResponses SyncProducer]
    = [go_handleAsyncResponses SyncProducer]
  ∧ assertAsyncProducer SyncProducer = None
  ∧ ∀ g responses lg0,
      g ∈ [go_handleAsyncResponses SyncProducer] →
      runGoroutine g responses lg0 = Panicked assertionFailed lg0.
Proof.
  apply (sync_producer_response_loop_panics None {[ "orders" := ex_conf ]} []
           (ex_sync_producer ex_conf) [go_handleAsyncResponses SyncProducer]
           []).
  done.
Defined.

Lemma ex_sched_waiting_reachable : reachable ex_consumer ex_sched_waiting.
Proof. by exists ex_moves. Qed.

(** In the sample state, with the loop on partition 0 of "orders"
    running, [Wait] returns and the coordinator calls [c.group.Next] for
    the second time; the loop is still running then. *)
Lemma wait_returns_once_consumeTopic_returned :
  (sc_pc (mkSched AtNext (Some ex_gen) 0 [] [mkLoopTask "orders" 0 42]
            [mkLoopTask "orders" 0 42] 1%nat []) = AtNext
   ∧ sc_topics (mkSched AtNext (Some ex_gen) 0 [] [mkLoopTask "orders" 0 42]
                  [mkLoopTask "orders" 0 42] 1%nat []) = []
   ∧ sc_started (mkSched AtNext (Some ex_gen) 0 [] [mkLoopTask "orders" 0 42]
                   [mkLoopTask "orders" 0 42] 1%nat [])
     ≡ₚ generationTasks ex_consumer
          (mkSched AtNext (Some ex_gen) 0 [] [mkLoopTask "orders" 0 42]
             [mkLoopTask "orders" 0 42] 1%nat [])
   ∧ sc_loops (mkSched AtNext (Some ex_gen) 0 [] [mkLoopTask "orders" 0 42]
                 [mkLoopTask "orders" 0 42] 1%nat [])
     = sc_loops ex_sched_waiting)
  ∧ (∃ s' s'',
       startConsume_step ex_consumer CoordWaitReturns ex_sched_waiting
       = Some s'
       ∧ startConsume_step ex_consumer CoordCallsNext s' = Some s''
       ∧ sc_pc s'' = InNext
       ∧ sc_nexts s'' = S (sc_nexts ex_sched_waiting)
       ∧ sc_loops s'' = sc_loops ex_sched_waiting)
  ∧ ∃ r,
      reachable ex_consumer r
      ∧ sc_pc r = InNext
      ∧ sc_nexts r = 2%nat
      ∧ sc_gen r = Some ex_gen
      ∧ sc_loops r = concat (consumeTopic ex_gen <$> topicNames ex_consumer).
Proof.
  destruct (startConsume_waits_for_consumeTopic ex_consumer ex_sched_waiting
              ex_gen) as (_ & Hreturned & Hreturns & Hall).
  { exists ex_moves. reflexivity. }
  split; [|split].
  - apply Hreturned. reflexivity.
  - apply Hreturns; reflexivity.
  - exact Hall.
Defined.

(** C9, as stated, fails: after the moves of the sample, [Wait] returns and
    the coordinator calls [c.group.Next] a second time while the loop on
    partition 0 of "orders" is running. *)
Lemma next_generation_requested_while_loop_runs :
  ¬ waits_for_loops ex_consumer.
Proof.
  intros Hwaits.
  specialize (Hwaits
    (mkSched InNext (Some ex_gen) 0 [] [mkLoopTask "orders" 0 42]
       [mkLoopTask "orders" 0 42] 2%nat [])).
  discriminate Hwaits; [|done].
  by exists (ex_moves ++ [CoordWaitReturns; CoordCallsNext]).
Qed.

(** * The further properties on the sample inputs *)

Lemma ex_fetch_serves (first : Z) (n : nat) (fl : bool) :
  0 ≤ first → serves (mkReader ex_fetch first fl) first n.
Proof.
  intros Hfirst o Ho. exists (mkKafkaMessage "orders" 0 o [] []).
  simpl. unfold ex_fetch. by rewrite decide_True by lia.
Defined.

(** The record at 42 is processed: 42 is committed and the reader is at 43. *)
Lemma order_42_processed_and_committed :
  ∃ st',
    loopBody ex_consumer ex_conf_ok "orders" 0 ex_state = Continue st'
    ∧ ls_reader st' = mkReader ex_fetch 43 false
    ∧ rd_offset (mkReader ex_fetch 43 false) = int64 (km_Offset ex_record_42 + 1)
    ∧ ls_host st' = 1%nat
    ∧ ls_failMessages st' = ls_failMessages ex_state
    ∧ gen_commit_calls (ls_gen st')
      = gen_commit_calls (ls_gen ex_state)
        ++ match gen_commit_result (ls_gen ex_state)
                   (length (gen_commit_calls (ls_gen ex_state))) with
           | None => [offset_map "orders" 0 (km_Offset ex_record_42)]
           | Some _ =>
               [offset_map "orders" 0 (km_Offset ex_record_42);
                offset_map "orders" 0 (km_Offset ex_record_42)]
           end
    ∧ (gen_commit_result (ls_gen ex_state)
         (length (gen_commit_calls (ls_gen ex_state))) = None →
       committed_offset (ls_gen st') "orders" 0
       = Some (km_Offset ex_record_42)
       ∧ ls_log st' = ls_log ex_state).
Proof.
  apply (loopBody_success_commits_record ex_consumer ex_conf_ok "orders" 0
           ex_state ex_record_42 (mkReader ex_fetch 43 false) ex_processor_ok
           1%nat); reflexivity.
Defined.

(** A partition that delivers nothing: the loop returns on its first pass. *)
Lemma ended_partition_returns :
  ∃ st',
    readLoop 3 ex_consumer ex_conf "orders" 0 ex_state_ended = Returned st'
    ∧ ls_log st'
      = ls_log ex_state_ended
        ++ [LogError LogCatKafkaConsume (errMsgRead errCtxDone)]
    ∧ ls_host st' = ls_host ex_state_ended
    ∧ ls_gen st' = ls_gen ex_state_ended
    ∧ ls_failMessages st' = ls_failMessages ex_state_ended
    ∧ ls_reader st' = ls_reader ex_state_ended.
Proof.
  apply (readLoop_read_error_returns ex_consumer ex_conf "orders" 0
           ex_state_ended errCtxDone (mkReader (λ _, None) 42 false) 2).
  reflexivity.
Defined.

(** Two passes on partition 0 of "orders" leave partition 1 alone. *)
Lemma orders_partition_1_untouched :
  committed_offset
    (ls_gen (loop_state (readLoop 2 ex_consumer ex_conf "orders" 0 ex_state)))
    "orders" 1
  = committed_offset (ls_gen ex_state) "orders" 1
  ∧ Assignments
      (ls_gen (loop_state (readLoop 2 ex_consumer ex_conf "orders" 0 ex_state)))
    = Assignments (ls_gen ex_state).
Proof.
  apply (readLoop_commits_own_partition_only 2 ex_consumer ex_conf "orders" 0
           ex_state "orders" 1).
  intros [=].
Defined.

(** Three records from 42 on: 42, 43 and 44 are committed in turn. *)
Lemma three_orders_committed_in_order :
  ∃ st',
    readLoop 3 ex_consumer ex_conf_ok "orders" 0 ex_state = Running st'
    ∧ rd_offset (ls_reader st')
      = rd_offset (ls_reader ex_state) + Z.of_nat 3
    ∧ gen_commit_calls (ls_gen st')
      = gen_commit_calls (ls_gen ex_state)
        ++ (offset_map "orders" 0
              <$> seqZ (rd_offset (ls_reader ex_state)) (Z.of_nat 3))
    ∧ ls_failMessages st' = ls_failMessages ex_state
    ∧ ls_log st' = ls_log ex_state
    ∧ (3%nat ≠ 0%nat →
       committed_offset (ls_gen st') "orders" 0
       = Some (rd_offset (ls_reader ex_state) + Z.of_nat 3 - 1)).
Proof.
  apply (readLoop_successes_commit_in_order 3 ex_consumer ex_conf_ok "orders"
           0 ex_processor_ok ex_state).
  - reflexivity.
  - reflexivity.
  - reflexivity.
  - apply ex_fetch_serves. simpl. lia.
  - intros k. reflexivity.
  - simpl. lia.
  - simpl. lia.
Defined.

(** The record at 42 fails three times: 41 and 42 are committed three
    times over and the reader is still on 42. *)
Lemma failing_order_holds_partition :
  ∃ st',
    readLoop 3 ex_consumer ex_conf_bad "orders" 0 ex_state = Running st'
    ∧ rd_offset (ls_reader st') = km_Offset ex_record_42
    ∧ rd_closed (ls_reader st') = false
    ∧ gen_commit_calls (ls_gen st')
      = gen_commit_calls (ls_gen ex_state)
        ++ concat (replicate 3
                     [offset_map "orders" 0 (int64 (km_Offset ex_record_42 - 1));
                      offset_map "orders" 0 (km_Offset ex_record_42)])
    ∧ (3%nat ≠ 0%nat →
       committed_offset (ls_gen st') "orders" 0
       = Some (km_Offset ex_record_42)).
Proof.
  apply (readLoop_failing_record_holds_loop 3 ex_consumer ex_conf_bad "orders"
           0 ex_processor_bad ex_record_42 ex_state).
  - reflexivity.
  - reflexivity.
  - reflexivity.
  - reflexivity.
  - intros h. exists (extError "boom"). reflexivity.
  - intros k. reflexivity.
Defined.

(** With two receivers waiting, two failing passes hand over two failed
    messages for the record at 42. *)
Lemma failing_order_forwarded_twice :
  ∃ st',
    readLoop 2 ex_consumer ex_conf_bad "orders" 0 ex_state_two_receivers
    = Running st'
    ∧ ch_handed (ls_failMessages st')
      = ch_handed (ls_failMessages ex_state_two_receivers)
        ++ replicate 2
             (newFailedMessage
                (newKafkaGoMessage ex_record_42 (messageCodec ex_conf_bad))
                (FailedProcessingTopic ex_conf_bad) (extError "boom"))
    ∧ ch_recvq (ls_failMessages st')
      = (ch_recvq (ls_failMessages ex_state_two_receivers) - 2)%nat
    ∧ ch_buf (ls_failMessages st')
      = ch_buf (ls_failMessages ex_state_two_receivers).
Proof.
  apply (readLoop_failing_record_forwarded_each_pass 2 ex_consumer ex_conf_bad
           "orders" 0 ex_processor_bad ex_record_42 (extError "boom")
           ex_state_two_receivers).
  - reflexivity.
  - intros [=].
  - reflexivity.
  - reflexivity.
  - reflexivity.
  - intros h. reflexivity.
  - simpl. lia.
Defined.

Lemma ex_gen_assigns_once (t : string) :
  NoDup (pa_ID <$> default [] (Assignments ex_gen !! t)).
Proof.
  destruct (decide (t = "orders")) as [->|Hne].
  - apply NoDup_singleton.
  - unfold ex_gen; simpl. rewrite lookup_singleton_ne by done. constructor.
Defined.

(** In the sample generation the loops started are on distinct
    partitions, and the wait group stands at zero. *)
Lemma sample_generation_loops_distinct :
  NoDup (task_partition <$> sc_started ex_sched_waiting).
Proof.
  apply (startConsume_one_loop_per_partition ex_consumer ex_sched_waiting
           ex_gen).
  - exists ex_moves. reflexivity.
  - reflexivity.
  - apply NoDup_singleton.
  - apply ex_gen_assigns_once.
Defined.

Lemma sample_generation_counter_not_negative : 0 ≤ sc_wg ex_sched_waiting.
Proof.
  apply (startConsume_wait_group_not_negative ex_consumer ex_sched_waiting).
  exists ex_moves. reflexivity.
Defined.

(** A consumer of either backend, just built, drops the failed record at
    42 while nobody receives. *)
Lemma fresh_consumers_drop_failed_order :
  (∃ st',
     loopBody ex_consumer ex_conf "orders" 0 ex_state_idle = Continue st'
     ∧ ls_failMessages st' = make_chan 0
     ∧ LogError LogCatKafkaConsume
         (errEvent notSentToFailHandler (km_Topic ex_record_42)
            (int32 (km_Partition ex_record_42)) (km_Offset ex_record_42))
       ∈ ls_log st')
  ∧ (∃ st',
       claimBody ex_sarama ex_sarama_msg
         (mkClaimState [] ex_chan_idle 0%nat [] None) = Continue st'
       ∧ cs_failMessages st' = make_chan 0
       ∧ cs_marked st' = []
       ∧ LogError LogCatKafkaConsume
           (errEvent notSentToFailHandler (sm_Topic ex_sarama_msg)
              (int32 (sm_Partition ex_sarama_msg)) (sm_Offset ex_sarama_msg))
         ∈ cs_log st').
Proof.
  destruct (@constructed_consumer_drops_without_receiver unit nat)
    as [Hkafkago Hsarama].
  split.
  - apply (Hkafkago ["orders"] {[ "orders" := ex_conf ]} tt
             (mkKafkagoBuilt ex_consumer (mkGate 1 [] true) (make_chan 0))
             ex_conf "orders" 0 ex_state_idle ex_record_42
             (mkReader ex_fetch 43 false) ex_processor (extError "boom")
             1%nat); try reflexivity.
    intros [=].
  - apply (Hsarama {[ "orders" := ex_conf ]} ["orders"] tt
             (mkSaramaBuilt ex_sarama (make_gate 0) (Some (mkGate 1 [] true))
                (Some (make_chan 0)))
             ex_sarama_msg (mkClaimState [] ex_chan_idle 0%nat [] None)
             ex_processor (extError "boom") 1%nat); try reflexivity.
    + intros [=].
    + intros [=].
    + intros [=].
Defined.

(** The first call of [Consume] fails before a session starts: the channel
    the constructor made is never closed, though the second call starts a
    session. *)
Lemma first_ready_channel_stays_open :
  ds_chans (loop_state (consumeDriver ex_calls driver_init)) !! 0%nat
  = Some false.
Proof.
  apply (consumeDriver_ready_closed_by_own_call 0 ex_calls
           (mkConsumeCall false (Some (extError "no brokers")) false)).
  - reflexivity.
  - intros j call' Hj. lia.
Defined.

(** The driver on the sample calls: it goes on after the error and ends on
    the cancelled call, with two channels made. *)
Example driver_ends_on_second_call :
  consumeDriver ex_calls driver_init
  = Returned
      (mkDriverState [false; true] 1%nat
         [ConsumeErrorLogged (extError "no brokers"); Slept5s; ReadyRemade]).
Proof. reflexivity. Qed.

(** An unknown producer type: no producer, and every message is refused. *)
Lemma unknown_producer_type_refuses :
  initialized (mkSaramaProducer (ProcessorDependencies:=unit) (Host:=nat)
                 NilProducer ∅ false) = false
  ∧ producer (mkSaramaProducer (ProcessorDependencies:=unit) (Host:=nat)
                NilProducer ∅ false) = NilProducer
  ∧ @nil Goroutine = []
  ∧ [LogError LogCatKafkaProducerInit errInvalidProducer]
    = [] ++ [LogError LogCatKafkaProducerInit errInvalidProducer]
  ∧ (∀ name, ProducerTypeOther "bulk" = ProducerTypeOther name →
             errInvalidProducer = errInvalidProducer)
  ∧ ∀ topic key msg w,
      (produceMessage ex_formatFloat
         (mkSaramaProducer (ProcessorDependencies:=unit) (Host:=nat)
            NilProducer ∅ false) topic key msg w).1
      = Some errInvalidProducer
      ∧ pw_sent
          (produceMessage ex_formatFloat
             (mkSaramaProducer (ProcessorDependencies:=unit) (Host:=nat)
                NilProducer ∅ false) topic key msg w).2 = pw_sent w
      ∧ pw_input
          (produceMessage ex_formatFloat
             (mkSaramaProducer (ProcessorDependencies:=unit) (Host:=nat)
                NilProducer ∅ false) topic key msg w).2 = pw_input w.
Proof.
  apply (failed_producer_rejects_messages ex_formatFloat
           (ProducerTypeOther "bulk") None {[ "orders" := ex_conf ]} []).
  reflexivity.
Defined.

(** An async producer built without error: its goroutine logs a success
    and a failure and waits for more. *)
Lemma async_producer_sample_logs :
  initialized (mkSaramaProducer AsyncProducer {[ "orders" := ex_conf ]} true)
  = true
  ∧ sp_topicConf
      (mkSaramaProducer AsyncProducer {[ "orders" := ex_conf ]} true)
    = {[ "orders" := ex_conf ]}
  ∧ @nil LogEntry = []
  ∧ ∃ g, [go_handleAsyncResponses AsyncProducer] = [g]
         ∧ ∀ responses lg0,
             runGoroutine g responses lg0
             = Running (lg0 ++ (responseEntry <$> responses)).
Proof.
  apply (async_producer_logs_every_response None {[ "orders" := ex_conf ]} []
           (mkSaramaProducer AsyncProducer {[ "orders" := ex_conf ]} true)
           [go_handleAsyncResponses AsyncProducer] []).
  reflexivity.
Defined.

(** A map payload is of no supported type: [errMessageType] comes back and
    nothing is sent. *)
Lemma map_payload_not_sent :
  (produceMessage ex_formatFloat (ex_sync_producer ex_conf) "orders" "k"
     (VOther KMap) ex_world).1 = Some errMessageType
  ∧ pw_sent
      (produceMessage ex_formatFloat (ex_sync_producer ex_conf) "orders" "k"
         (VOther KMap) ex_world).2 = pw_sent ex_world
  ∧ pw_input
      (produceMessage ex_formatFloat (ex_sync_producer ex_conf) "orders" "k"
         (VOther KMap) ex_world).2 = pw_input ex_world
  ∧ last
      (pw_log
         (produceMessage ex_formatFloat (ex_sync_producer ex_conf) "orders"
            "k" (VOther KMap) ex_world).2)
    = Some (LogError LogCatKafkaProduce errMessageType).
Proof.
  apply (produceMessage_encoder_error_not_sent ex_formatFloat
           (ex_sync_producer ex_conf) "orders" "k" (VOther KMap) ex_world
           errMessageType).
  reflexivity.
Defined.

(** A struct payload that the codec refuses: the codec's error comes back
    and nothing is sent. *)
Example refused_struct_not_sent :
  produceMessage ex_formatFloat (ex_sync_producer ex_conf_failing) "orders"
    "k" (VStruct "Order" []) ex_world
  = (Some (extError "schema"),
     mkProducerWorld
       [LogError LogCatKafkaEncode (extError "schema");
        LogError LogCatKafkaProduce (extError "schema")]
       [VStruct "Order" []] [] [] (pw_ack ex_world)).
Proof. reflexivity. Qed.

(** The text "hello" on "orders" reaches [SendMessage] unchanged. *)
Lemma hello_sent_as_text :
  pw_encoded
    (produceMessage ex_formatFloat (ex_sync_producer ex_conf) "orders" "k"
       (VString "hello") ex_world).2 = pw_encoded ex_world
  ∧ (produceMessage ex_formatFloat (ex_sync_producer ex_conf) "orders" "k"
       (VString "hello") ex_world).1
    = pw_ack ex_world (length (pw_sent ex_world))
  ∧ pw_sent
      (produceMessage ex_formatFloat (ex_sync_producer ex_conf) "orders" "k"
         (VString "hello") ex_world).2
    = pw_sent ex_world
      ++ [mkProducerMessage "orders" (StringEncoder "k")
            (Some (StringEncoder "hello"))]
  ∧ pw_input
      (produceMessage ex_formatFloat (ex_sync_producer ex_conf) "orders" "k"
         (VString "hello") ex_world).2 = pw_input ex_world.
Proof.
  apply (produceMessage_text_passes_through ex_formatFloat
           (ex_sync_producer ex_conf) "orders" "k" "hello" ex_codec ex_world).
  reflexivity.
Defined.

(** A func payload: [errMessageType] is returned and is the last log line. *)
Lemma func_payload_error_logged :
  last
    (pw_log
       (produceMessage ex_formatFloat (ex_sync_producer ex_conf) "orders" "k"
          (VOther KFunc) ex_world).2)
  = Some (LogError LogCatKafkaProduce errMessageType).
Proof.
  apply (produceMessage_logs_returned_error ex_formatFloat
           (ex_sync_producer ex_conf) "orders" "k" (VOther KFunc) ex_world
           errMessageType).
  reflexivity.
Defined.

(** Two messages of a topic whose entry has neither name nor codec, then
    the end of the context: two log lines and nothing else. *)
Lemma bare_orders_claim_skipped :
  cs_marked
    (run_state
       (ConsumeClaim ex_sarama_bare
          [ClaimMessage ex_sarama_msg; ClaimMessage ex_sarama_msg; ContextDone]
          ex_claim_state)) = cs_marked ex_claim_state
  ∧ cs_host
      (run_state
         (ConsumeClaim ex_sarama_bare
            [ClaimMessage ex_sarama_msg; ClaimMessage ex_sarama_msg;
             ContextDone] ex_claim_state)) = cs_host ex_claim_state
  ∧ cs_failMessages
      (run_state
         (ConsumeClaim ex_sarama_bare
            [ClaimMessage ex_sarama_msg; ClaimMessage ex_sarama_msg;
             ContextDone] ex_claim_state)) = cs_failMessages ex_claim_state
  ∧ cs_log
      (run_state
         (ConsumeClaim ex_sarama_bare
            [ClaimMessage ex_sarama_msg; ClaimMessage ex_sarama_msg;
             ContextDone] ex_claim_state))
    = cs_log ex_claim_state
      ++ replicate
           (leadingMessages
              [ClaimMessage ex_sarama_msg; ClaimMessage ex_sarama_msg;
               ContextDone])
           (LogError LogCatKafkaConsume errTopicConfMissing).
Proof.
  apply (ConsumeClaim_unconfigured_claim_skipped ex_sarama_bare
           [ClaimMessage ex_sarama_msg; ClaimMessage ex_sarama_msg; ContextDone]
           ex_claim_state).
  intros msg Hin. left.
  simpl in Hin. apply elem_of_cons in Hin as [->|Hin]; [reflexivity|].
  apply elem_of_cons in Hin as [->|Hin]; [reflexivity|].
  by apply elem_of_nil in Hin.
Defined.

(** The generation that assigns nothing starts no loop. *)
Lemma unassigned_generation_starts_nothing :
  sc_started ex_sched_unassigned = [].
Proof.
  apply (startConsume_unassigned_generation_starts_nothing ex_consumer
           ex_sched_unassigned ex_gen_unassigned).
  - exists ex_moves_unassigned. reflexivity.
  - reflexivity.
  - intros t Hin. reflexivity.
Defined.
